(** * svg_translator: a shallow embedding of the paragraph re-flow heuristic

    The development follows [svg_translator.py].  The parsed SVG document is
    a tree of elements (tag, optional text, children); the network call of
    [translate], NLTK's [sent_tokenize] and [textwrap.wrap] are external to
    the program and enter as parameters.  Python [str] values are modelled
    as [string] (one [ascii] per character, i.e. the Latin-1 range), lengths
    as [nat] and the wrap width as [Z] (it is [max_size - 1] and may reach
    zero). *)

From Stdlib Require Import Ascii String ZArith Lia Bool Sorted.
From stdpp Require Import base list strings.

Local Open Scope Z_scope.
Local Open Scope nat_scope.

(** ** Python string primitives used by the program *)

Module Py.

(** [str.isspace] on one character, restricted to the Latin-1 range. *)
Definition isspace (c : ascii) : bool :=
  let n := N_of_ascii c in
  ((9 <=? n) && (n <=? 13) || (28 <=? n) && (n <=? 32)
   || (n =? 133) || (n =? 160))%N.

Fixpoint lstrip (s : string) : string :=
  match s with
  | EmptyString => EmptyString
  | String c s' => if isspace c then lstrip s' else s
  end.

Fixpoint rstrip (s : string) : string :=
  match s with
  | EmptyString => EmptyString
  | String c s' =>
      match rstrip s' with
      | EmptyString => if isspace c then EmptyString else String c EmptyString
      | r => String c r
      end
  end.

(** [s.strip()] *)
Definition strip (s : string) : string := rstrip (lstrip s).

(** [str.lower] on one character of the Latin-1 range: A-Z and the
    accented capitals 0xC0-0xDE (0xD7, the multiplication sign, apart). *)
Definition lower_char (c : ascii) : ascii :=
  let n := N_of_ascii c in
  if ((65 <=? n) && (n <=? 90)
      || (192 <=? n) && (n <=? 222) && negb (n =? 215))%N
  then ascii_of_N (n + 32) else c.

(** [s.lower()] *)
Fixpoint lower (s : string) : string :=
  match s with
  | EmptyString => EmptyString
  | String c s' => String (lower_char c) (lower s')
  end.

(** [sep.join(parts)] *)
Fixpoint join (sep : string) (parts : list string) : string :=
  match parts with
  | [] => ""
  | [p] => p
  | p :: rest => p +:+ sep +:+ join sep rest
  end.

(** [len(s)] *)
Definition len (s : string) : nat := String.length s.

(** Truth value of a string in a condition: non-empty. *)
Definition truthy (s : string) : bool :=
  match s with EmptyString => false | String _ _ => true end.

(** [s.endswith(suffix)] *)
Definition endswith (s suffix : string) : bool :=
  (len suffix <=? len s)
  && String.eqb (String.substring (len s - len suffix) (len suffix) s) suffix.

(** [max(l)] of a list of lengths; [ValueError] on the empty list is the
    [None] here and is turned into the exception by the caller. *)
Definition max (l : list nat) : option nat :=
  match l with
  | [] => None
  | x :: rest => Some (foldl Nat.max x rest)
  end.

(** [s.split()]: the maximal runs of non-blank characters.  The helper
    returns the word being read at the head of [s] and the words after it. *)
Fixpoint split_words (s : string) : string * list string :=
  match s with
  | EmptyString => (EmptyString, [])
  | String c s' =>
      let '(w, ws) := split_words s' in
      if isspace c then (EmptyString, if truthy w then w :: ws else ws)
      else (String c w, ws)
  end.

Definition split (s : string) : list string :=
  let '(w, ws) := split_words s in if truthy w then w :: ws else ws.

(** Whitespace normalisation: stripped, inner blanks collapsed to one
    space, i.e. [" ".join(s.split())]. *)
Definition normalize (s : string) : string := join " " (split s).

End Py.

(** ** The three compiled patterns *)

Definition newline : ascii := ascii_of_N 10.

(** The tail [.*?\}name$] of the tag patterns, by backtracking: either the
    rest of the string is [}name] (with [$] also accepting one final
    newline), or one more character other than a newline is consumed. *)
Fixpoint lazy_dot_then (closing : string) (s : string) : bool :=
  String.eqb s closing
  || String.eqb s (closing +:+ String newline EmptyString)
  || match s with
     | EmptyString => false
     | String c s' =>
         if Ascii.eqb c newline then false else lazy_dot_then closing s'
     end.

Definition brace_tag_match (name : string) (tag : string) : bool :=
  match tag with
  | String "{"%char rest => lazy_dot_then ("}" +:+ name) rest
  | _ => false
  end.

(** [TEXT_TAG.match(tag)] for [TEXT_TAG = re.compile("^\{.*?\}text$")] *)
Definition TEXT_TAG (tag : string) : bool := brace_tag_match "text" tag.

(** [TSPAN_TAG.match(tag)] for [TSPAN_TAG = re.compile("^\{.*?\}tspan$")] *)
Definition TSPAN_TAG (tag : string) : bool := brace_tag_match "tspan" tag.

(** The character class of [INVALID_TEXT = re.compile("[<>^*=]")]. *)
Definition invalid_char (c : ascii) : bool :=
  Ascii.eqb c "<" || Ascii.eqb c ">" || Ascii.eqb c "^"
  || Ascii.eqb c "*" || Ascii.eqb c "=".

(** [INVALID_TEXT.match(s)]: [re.match] anchors at the start of the string,
    so only the first character is looked at. *)
Definition INVALID_TEXT_match (s : string) : bool :=
  match s with
  | EmptyString => false
  | String c _ => invalid_char c
  end.

(** Truth value of [INVALID_TEXT.findall(s)]: some character of [s] is in
    the class. *)
Fixpoint INVALID_TEXT_findall (s : string) : bool :=
  match s with
  | EmptyString => false
  | String c s' => invalid_char c || INVALID_TEXT_findall s'
  end.

(** ** Exceptions and the monad of translation calls *)

Inductive exn : Type :=
  | ValueError
  | IndexError
  | TranslationError
  | ParseError.

(** A pure computation that may raise. *)
Inductive result (A : Type) : Type :=
  | Res (a : A)
  | Exc (e : exn).
Arguments Res {A} a.
Arguments Exc {A} e.

(** The effect of the program that the properties talk about is the
    sequence of texts handed to [translate]; a computation threads that
    log and either returns or raises. *)
Inductive outcome (A : Type) : Type :=
  | Ok (a : A) (log : list string)
  | Raise (e : exn) (log : list string).
Arguments Ok {A} a log.
Arguments Raise {A} e log.

Definition M (A : Type) : Type := list string -> outcome A.

Definition ret {A} (a : A) : M A := fun log => Ok a log.

Definition bind {A B} (m : M A) (k : A -> M B) : M B :=
  fun log =>
    match m log with
    | Ok a log' => k a log'
    | Raise e log' => Raise e log'
    end.

Definition lift {A} (r : result A) : M A :=
  fun log => match r with Res a => Ok a log | Exc e => Raise e log end.

Notation "'do' x <- m ; k" := (bind m (fun x => k))
  (at level 10, x name, m at level 100, k at level 200).

Fixpoint mapM {A B} (f : A -> M B) (l : list A) : M (list B) :=
  match l with
  | [] => ret []
  | x :: rest => do y <- f x; do ys <- mapM f rest; ret (y :: ys)
  end.

(** ** The document tree *)

(** An lxml element as far as the program reads it: [elem.tag],
    [elem.text] ([None] when the element has no text) and
    [elem.getchildren()]. *)
#[local] Unset Elimination Schemes.
Inductive element : Type :=
  | Element (tag : string) (text : option string) (children : list element).
#[local] Set Elimination Schemes.

Definition tag (e : element) : string :=
  match e with Element t _ _ => t end.
Definition text (e : element) : option string :=
  match e with Element _ x _ => x end.
Definition children (e : element) : list element :=
  match e with Element _ _ ks => ks end.

(** A child of the element under inspection is referred to by its position
    among the children; [child.text = s] replaces the text of that child
    and nothing else. *)
Definition with_text (s : string) (e : element) : element :=
  Element (tag e) (Some s) (children e).

Definition set_text (child : nat) (s : string) (kids : list element)
  : list element :=
  alter (with_text s) child kids.

(** The text of the child at a given position, when there is one. *)
Definition text_at (kids : list element) (child : nat) : option string :=
  e ← kids !! child; text e.

(** A reference to an element of the parsed tree: the positions to follow
    from the root down to it. *)
Abbreviation ref_t := (list nat).

Fixpoint subtree (ref : ref_t) (e : element) : option element :=
  match ref with
  | [] => Some e
  | i :: ref' => k ← children e !! i; subtree ref' k
  end.

(** [tree.iter()]: every element, in document order. *)
Fixpoint iter (e : element) : list ref_t :=
  match e with
  | Element _ _ ks =>
      [] :: (fix over (i : nat) (l : list element) : list ref_t :=
               match l with
               | [] => []
               | k :: rest => map (cons i) (iter k) ++ over (S i) rest
               end) 0 ks
  end.

(** Lines 99-104, after parsing: the references of the elements whose tag
    matches [TEXT_TAG], in document order. *)
Definition get_text_tags (tree : element) : list ref_t :=
  List.filter (fun ref => match subtree ref tree with
                          | Some e => TEXT_TAG (tag e)
                          | None => false
                          end) (iter tree).

(** Running a computation on the element a reference points to, in place. *)
Fixpoint at_ref (ref : ref_t) (f : element -> M element) (e : element)
  : M element :=
  match ref with
  | [] => f e
  | i :: ref' =>
      match children e !! i with
      | Some k =>
          do k' <- at_ref ref' f k;
          ret (Element (tag e) (text e) (<[i := k']> (children e)))
      | None => ret e
      end
  end.

(** A paragraph: the (child, text) pairs in the order they were appended. *)
Abbreviation paragraph_t := (list (nat * string)).

(** ** Line-count reconciliation (lines 76-91) *)

(** [l.pop(-1)]: the last item and the list without it. *)
Definition pop (l : list string) : option (string * list string) :=
  match last l with
  | Some x => Some (x, removelast l)
  | None => None
  end.

(** [[l.pop(-1) for i in range(diff)]]: the popped items in the order the
    comprehension produces them, and what is left of [l]. *)
Fixpoint pop_many (diff : nat) (l : list string)
  : result (list string * list string) :=
  match diff with
  | 0 => Res ([], l)
  | S d =>
      match pop l with
      | None => Exc IndexError
      | Some (x, l') =>
          match pop_many d l' with
          | Res (xs, l'') => Res (x :: xs, l'')
          | Exc e => Exc e
          end
      end
  end.

(** [l[-1] = Py.join " " [l[-1]; tail]] *)
Definition merge_into_last (l : list string) (tail : string)
  : result (list string) :=
  match last l with
  | Some x => Res (removelast l ++ [Py.join " " [x; tail]])
  | None => Exc IndexError
  end.

Definition reconcile (size : nat) (translated_paragraph : list string)
  : result (list string) :=
  let new_size := length translated_paragraph in
  let merged :=
    if size <? new_size then
      let diff := new_size - size in
      match pop_many diff translated_paragraph with
      | Res (popped, rest) => merge_into_last rest (Py.join " " popped)
      | Exc e => Exc e
      end
    else Res translated_paragraph in
  match merged with
  | Res lines =>
      if new_size <? size then
        let diff := size - new_size in
        Res (lines ++ replicate diff ""%string)
      else Res lines
  | Exc e => Exc e
  end.

(** The final loop over [zip(paragraph, translated_paragraph)]. *)
Definition assign (paragraph : paragraph_t) (lines : list string)
    (kids : list element) : list element :=
  foldl (fun ks pl => set_text (fst (fst pl)) (snd pl) ks)
        kids (zip paragraph lines).

(** ** The program *)

(** What [translate] sends to the endpoint: the source language ([None]
    selects [AUTODETECT_URL]), the target language and the text. *)
Record request : Type := Request {
  source_lang : option string;
  target_lang : string;
  payload : string
}.

Section Program.

(** The translation endpoint: for a request, the [trans] fields of the
    [sentences] of the JSON reply, or no usable reply at all. *)
Variable endpoint : request -> option (list string).

(** [nltk.sent_tokenize] *)
Variable sent_tokenize : string -> list string.

(** [textwrap.wrap(text, width, replace_whitespace=True)] *)
Variable wrap : string -> Z -> result (list string).

(** The command-line options [--from-lang] and [--to-lang]. *)
Variable from_lang : option string.
Variable to_lang : string.

(** Lines 36-57.  An empty [from_lang] is as good as none; the reply's
    first sentence is returned, and a failed request or a reply without
    a first sentence raises. *)
Definition build_request (text : string) : request :=
  match from_lang with
  | Some l => if Py.truthy l then Request (Some l) to_lang text
              else Request None to_lang text
  | None => Request None to_lang text
  end.

Definition translate (text : string) : M string :=
  fun log =>
    let log' := log ++ [text] in
    match endpoint (build_request text) with
    | Some (trans :: _) => Ok trans log'
    | _ => Raise TranslationError log'
    end.

(** What a call of [translate] returns for a text, when it returns. *)
Definition translation_of (s : string) : option string :=
  match endpoint (build_request s) with
  | Some (trans :: _) => Some trans
  | _ => None
  end.

(** Lines 61-74: from the paragraph to the wrapped translation; [None]
    is the early [return] of the creative-commons case. *)
Definition raw_paragraph_of (paragraph : paragraph_t) : string :=
  Py.join " " (map (fun ct => Py.strip (snd ct)) paragraph).

Definition reflow_lines (paragraph : paragraph_t) : M (option (list string)) :=
  do max_size <- lift (match Py.max (map (fun ct => Py.len (snd ct)) paragraph)
                       with Some m => Res m | None => Exc ValueError end);
  let raw_paragraph := raw_paragraph_of paragraph in
  if String.eqb (Py.lower raw_paragraph) "creative commons" then ret None
  else
    do translated <- mapM translate (sent_tokenize raw_paragraph);
    let phrases := Py.join " " translated in
    do translated_paragraph <- lift (wrap phrases (Z.of_nat max_size - 1));
    ret (Some translated_paragraph).

(** The wrapped translation as the specification words it: the raw
    paragraph is the space-join of the stripped fragments, [T] the
    space-join of the translations of its sentences, [m] the greatest
    length of a fragment as it stands, and the lines are [wrap(T, m - 1)]. *)
Definition spec_wrapped_text (tr : string -> string) (fragments : list string)
  : result (list string) :=
  let raw := Py.join " " (map Py.strip fragments) in
  let T := Py.join " " (map tr (sent_tokenize raw)) in
  let m := max_list (map Py.len fragments) in
  wrap T (Z.of_nat m - 1).

(** Lines 60-96, on the children the paragraph refers to. *)
Definition translate_split_paragraph (paragraph : paragraph_t)
    (kids : list element) : M (list element) :=
  let size := length paragraph in
  do wrapped <- reflow_lines paragraph;
  match wrapped with
  | None => ret kids
  | Some translated_paragraph =>
      do lines <- lift (reconcile size translated_paragraph);
      ret (assign paragraph lines kids)
  end.

(** The same re-flow with the wrap width left open, as the round-trip
    property of the specification reads it; the program always takes
    [max_size - 1]. *)
Definition reflow_lines_at (width : Z) (paragraph : paragraph_t)
  : M (option (list string)) :=
  let raw_paragraph := raw_paragraph_of paragraph in
  if String.eqb (Py.lower raw_paragraph) "creative commons" then ret None
  else
    do translated <- mapM translate (sent_tokenize raw_paragraph);
    let phrases := Py.join " " translated in
    do translated_paragraph <- lift (wrap phrases width);
    ret (Some translated_paragraph).

Definition translate_split_paragraph_at (width : Z) (paragraph : paragraph_t)
    (kids : list element) : M (list element) :=
  let size := length paragraph in
  do wrapped <- reflow_lines_at width paragraph;
  match wrapped with
  | None => ret kids
  | Some translated_paragraph =>
      do lines <- lift (reconcile size translated_paragraph);
      ret (assign paragraph lines kids)
  end.

(** Lines 136-152: whether a child is appended to the paragraph, and with
    which text. *)
Definition fragment_of (child : element) : option string :=
  if TSPAN_TAG (tag child) then
    match text child with
    | Some t =>
        if Py.truthy t then
          if INVALID_TEXT_findall t then None else Some t
        else None
    | None => None
    end
  else None.

(** Whether a child contributes a fragment. *)
Definition is_fragment (child : element) : bool :=
  match fragment_of child with Some _ => true | None => false end.

(** Lines 133-152: the loop over the children, [i] being the position of
    the first of [kids]. *)
Fixpoint collect_from (i : nat) (kids : list element) : paragraph_t :=
  match kids with
  | [] => []
  | child :: rest =>
      match fragment_of child with
      | Some t => (i, t) :: collect_from (S i) rest
      | None => collect_from (S i) rest
      end
  end.

Definition collect_paragraph (kids : list element) : paragraph_t :=
  collect_from 0 kids.

(** Lines 122-129: the text of the text element itself. *)
Definition translate_own_text (e : element) : M (option string) :=
  match text e with
  | Some s =>
      if Py.truthy s then
        if negb (INVALID_TEXT_match s) then
          do translated <- translate s; ret (Some translated)
        else ret (Some s)
      else ret (Some s)
  | None => ret None
  end.

(** Lines 154-164: what is done with the paragraph once collected. *)
Definition translate_paragraph (paragraph : paragraph_t)
    (kids : list element) : M (list element) :=
  match paragraph with
  | [] => ret kids
  | [(child, t)] => do translated <- translate t; ret (set_text child translated kids)
  | _ => translate_split_paragraph paragraph kids
  end.

(** The body of the loop of [translate_file] for one text element. *)
Definition translate_text_element (e : element) : M element :=
  do own <- translate_own_text e;
  let paragraph := collect_paragraph (children e) in
  do kids <- translate_paragraph paragraph (children e);
  ret (Element (tag e) own kids).

(** Lines 117-164: the loop over [text_list], on the parsed tree; the
    tree it returns is the one serialised to the output file. *)
Definition translate_file (tree : element) : M element :=
  foldl (fun acc ref => do t <- acc; at_ref ref translate_text_element t)
        (ret tree) (get_text_tags tree).

End Program.

(** ** File validation and the main loop (lines 175-186 and 258-266) *)

(** What [os.path.exists] and [os.path.isfile] see at a path. *)
Inductive path_kind : Type :=
  | Missing
  | RegularFile
  | Directory.

Section Main.

Variable endpoint : request -> option (list string).
Variable sent_tokenize : string -> list string.
Variable wrap : string -> Z -> result (list string).
Variable from_lang : option string.
Variable to_lang : string.

(** The file system: what a path names, and what [etree.parse] makes of
    the file there. *)
Variable path_kind_of : string -> path_kind.
Variable parse : string -> result element.

Definition path_exists (fname : string) : bool :=
  match path_kind_of fname with Missing => false | _ => true end.

Definition path_isfile (fname : string) : bool :=
  match path_kind_of fname with RegularFile => true | _ => false end.

(** [validate_file]: the returned value ([None] when the function falls
    off its end) and the warnings it logs. *)
Definition validate_file (fname : string) : option bool * list string :=
  if negb (path_exists fname) then
    (Some false, ["File '" +:+ fname +:+ "' doesn't exist!"])
  else if negb (Py.endswith fname "svg") then
    (Some false, ["Sorry, the file '" +:+ fname +:+ "' isn't an svg file."])
  else if path_isfile fname then (Some true, [])
  else (None, []).

(** Truth value of what [validate_file] returns. *)
Definition accepted (fname : string) : bool :=
  match fst (validate_file fname) with Some b => b | None => false end.

(** [[fname for fname in args.files if validate_file(fname)]], with the
    warnings logged on the way. *)
Fixpoint validate_all (files : list string) : list string * list string :=
  match files with
  | [] => ([], [])
  | fname :: rest =>
      let '(kept, warnings) := validate_all rest in
      (if accepted fname then fname :: kept else kept,
       snd (validate_file fname) ++ warnings)
  end.

(** [fnames.sort()] *)
Fixpoint insert_sorted (x : string) (l : list string) : list string :=
  match l with
  | [] => [x]
  | y :: rest => if String.leb x y then x :: l else y :: insert_sorted x rest
  end.

Definition sort (l : list string) : list string :=
  foldr insert_sorted [] l.

(** The list the final loop runs over. *)
Definition fnames_of (files : list string) : list string :=
  sort (fst (validate_all files)).



End Main.

(** ** A model of [textwrap.wrap] for concrete inputs

    [textwrap] belongs to Python's standard library, not to the program.
    The general results below hold for any [wrap]; this model follows
    [TextWrapper] with the options the program leaves at their defaults
    and is used to run the program on concrete texts.  It covers texts
    without hyphens, on which the chunks of [_split] are the maximal runs
    of blanks and of non-blanks. *)

Module Textwrap.

Definition tab : ascii := ascii_of_N 9.
Definition space : ascii := " "%char.

(** The characters of [_whitespace]. *)
Definition is_whitespace (c : ascii) : bool :=
  let n := N_of_ascii c in ((9 <=? n) && (n <=? 13) || (n =? 32))%N.

Fixpoint spaces (n : nat) : string :=
  match n with 0 => "" | S n' => String space (spaces n') end.

(** [text.expandtabs(8)], from column [col]. *)
Fixpoint expandtabs (col : nat) (s : string) : string :=
  match s with
  | EmptyString => EmptyString
  | String c s' =>
      if Ascii.eqb c tab then
        let n := 8 - col mod 8 in spaces n +:+ expandtabs (col + n) s'
      else if Ascii.eqb c newline || Ascii.eqb c (ascii_of_N 13) then
        String c (expandtabs 0 s')
      else String c (expandtabs (S col) s')
  end.

Fixpoint blank_whitespace (s : string) : string :=
  match s with
  | EmptyString => EmptyString
  | String c s' =>
      String (if is_whitespace c then space else c) (blank_whitespace s')
  end.

(** [_munge_whitespace] *)
Definition munge_whitespace (s : string) : string :=
  blank_whitespace (expandtabs 0 s).

Definition starts_blank (s : string) : bool :=
  match s with String c _ => is_whitespace c | EmptyString => false end.

(** [_split] on a text without hyphens. *)
Fixpoint split (s : string) : list string :=
  match s with
  | EmptyString => []
  | String c s' =>
      match split s' with
      | first :: rest =>
          if Bool.eqb (is_whitespace c) (starts_blank first)
          then String c first :: rest
          else String c EmptyString :: first :: rest
      | [] => [String c EmptyString]
      end
  end.

Definition blank (chunk : string) : bool := String.eqb (Py.strip chunk) "".

Definition total_len (cur_line : list string) : nat :=
  foldr (fun c n => Py.len c + n) 0 cur_line.

(** The inner loop: chunks are taken while they fit on the line. *)
Fixpoint fill (width : nat) (cur_line : list string) (cur_len : nat)
    (chunks : list string) : list string * list string :=
  match chunks with
  | [] => (cur_line, [])
  | c :: rest =>
      if cur_len + Py.len c <=? width
      then fill width (cur_line ++ [c]) (cur_len + Py.len c) rest
      else (cur_line, chunks)
  end.

(** [_wrap_chunks], for a positive width; one round per line started. *)
Fixpoint wrap_chunks (fuel : nat) (width : nat) (chunks : list string)
    (lines : list string) : list string :=
  match fuel, chunks with
  | 0, _ => lines
  | _, [] => lines
  | S fuel', first :: rest =>
      let chunks1 :=
        if blank first && negb (bool_decide (lines = [])) then rest
        else chunks in
      let '(cur_line, chunks2) := fill width [] 0 chunks1 in
      let '(cur_line1, chunks3) :=
        match chunks2 with
        | long :: rest2 =>
            if width <? Py.len long then
              let space_left := width - total_len cur_line in
              (cur_line ++ [String.substring 0 space_left long],
               String.substring space_left (Py.len long - space_left) long
                 :: rest2)
            else (cur_line, chunks2)
        | [] => (cur_line, chunks2)
        end in
      let cur_line2 :=
        match last cur_line1 with
        | Some c => if blank c then removelast cur_line1 else cur_line1
        | None => cur_line1
        end in
      let lines' :=
        match cur_line2 with
        | [] => lines
        | _ => lines ++ [Py.join "" cur_line2]
        end in
      wrap_chunks fuel' width chunks3 lines'
  end.

Definition wrap (text : string) (width : Z) : result (list string) :=
  if (width <=? 0)%Z then Exc ValueError
  else Res (wrap_chunks (2 * Py.len text + 2) (Z.to_nat width)
              (split (munge_whitespace text)) []).

End Textwrap.

(** ** Concrete instances of the external parts *)

(** A text of one sentence is its own only sentence; the empty text has
    none. *)
Definition single_sentence (s : string) : list string :=
  if Py.truthy s then [s] else [].

(** A translation given by a table; a text that is not in it stays as it
    is. *)
Definition table_lookup (table : list (string * string)) (s : string)
  : string :=
  match List.find (fun st => String.eqb (fst st) s) table with
  | Some st => snd st
  | None => s
  end.

(** The endpoint that answers from such a table. *)
Definition table_endpoint (table : list (string * string)) (r : request)
  : option (list string) :=
  Some [table_lookup table (payload r)].

Definition phrasebook : list (string * string) :=
  [("I like cats", "Eu gosto de gatos");
   ("Hello dear world", "Oi mundo");
   ("Creative Commons", "Bens Comuns Criativos");
   ("2 * 3 = 6", "dois vezes tres")]%string.

(** An endpoint that has no answer for a text outside its table. *)
Definition strict_endpoint (table : list (string * string)) (r : request)
  : option (list string) :=
  match List.find (fun st => String.eqb (fst st) (payload r)) table with
  | Some st => Some [snd st]
  | None => None
  end.

(** The endpoint of the identity translation. *)
Definition echo_endpoint (r : request) : option (list string) :=
  Some [payload r].

Definition svg_text : string := "{http://www.w3.org/2000/svg}text".
Definition svg_tspan : string := "{http://www.w3.org/2000/svg}tspan".

(** A [tspan] leaf with the given text. *)
Definition tspan (s : string) : element := Element svg_tspan (Some s) [].

(** A document with a title and one text element of a single tspan. *)
Definition sample_document : element :=
  Element "{http://www.w3.org/2000/svg}svg" None
    [Element "{http://www.w3.org/2000/svg}title"
       (Some "Hello dear world"%string) [];
     Element svg_text None [tspan "Hello dear world"]].


(** A file system with two SVG files, a text file and a dangling name. *)
Definition sample_paths (fname : string) : path_kind :=
  if String.eqb fname "missing.svg" then Missing
  else if String.eqb fname "icons.svg" then Directory
  else RegularFile.


(** ** Output names (lines 107-114)

    [os.path] is [posixpath] of Python's standard library; the four
    functions the program uses are followed here character by character,
    and [str.format] enters as a parameter. *)

Module Path.

Definition is_sep (c : ascii) : bool := Ascii.eqb c "/".
Definition is_dot (c : ascii) : bool := Ascii.eqb c ".".

(** [(p[:i], p[i:])] for [i = p.rfind('/') + 1]. *)
Fixpoint cut (p : string) : string * string :=
  match p with
  | EmptyString => (EmptyString, EmptyString)
  | String c p' =>
      let '(head, tail) := cut p' in
      if Py.truthy head then (String c head, tail)
      else if is_sep c then (String c EmptyString, tail)
      else (EmptyString, String c tail)
  end.

(** [head == '/' * len(head)] *)
Fixpoint all_seps (s : string) : bool :=
  match s with
  | EmptyString => true
  | String c s' => is_sep c && all_seps s'
  end.

(** [head.rstrip('/')] *)
Fixpoint rstrip_seps (s : string) : string :=
  match s with
  | EmptyString => EmptyString
  | String c s' =>
      match rstrip_seps s' with
      | EmptyString => if is_sep c then EmptyString else String c EmptyString
      | r => String c r
      end
  end.

(** [os.path.dirname] *)
Definition dirname (p : string) : string :=
  let head := fst (cut p) in
  if Py.truthy head && negb (all_seps head) then rstrip_seps head else head.

(** [os.path.basename] *)
Definition basename (p : string) : string := snd (cut p).

(** [(name[:d], name[d:])] for [d = name.rfind('.')], on a name without
    separator; without a dot the second part is empty. *)
Fixpoint cut_ext (name : string) : string * string :=
  match name with
  | EmptyString => (EmptyString, EmptyString)
  | String c name' =>
      let '(root, ext) := cut_ext name' in
      if Py.truthy ext then (String c root, ext)
      else if is_dot c then (EmptyString, name)
      else (String c root, EmptyString)
  end.

Fixpoint all_dots (s : string) : bool :=
  match s with
  | EmptyString => true
  | String c s' => is_dot c && all_dots s'
  end.

(** [os.path.splitext]: the extension starts at the last dot of the last
    component, unless only dots precede it there. *)
Definition splitext (p : string) : string * string :=
  let '(head, tail) := cut p in
  let '(root, ext) := cut_ext tail in
  if Py.truthy ext && negb (all_dots root) then (head +:+ root, ext)
  else (p, EmptyString).

Definition starts_with_sep (s : string) : bool :=
  match s with String c _ => is_sep c | EmptyString => false end.

Fixpoint ends_with_sep (s : string) : bool :=
  match s with
  | EmptyString => false
  | String c EmptyString => is_sep c
  | String _ s' => ends_with_sep s'
  end.

(** [os.path.join(a, b)] *)
Definition join (a b : string) : string :=
  if starts_with_sep b then b
  else if negb (Py.truthy a) || ends_with_sep a then a +:+ b
  else a +:+ "/" +:+ b.

(** Whether a name is free of separators. *)
Fixpoint no_sep (s : string) : bool :=
  match s with
  | EmptyString => true
  | String c s' => negb (is_sep c) && no_sep s'
  end.

End Path.

(** The default of [out_pattern]. *)
Definition default_out_pattern : string := "{filename}_translated{extension}".

Section OutName.

(** [out_pattern.format(filename=..., extension=...)]; [None] when
    [format] raises. *)
Variable format : string -> string -> string -> option string.

Definition get_out_name (fname out_pattern : string) : option string :=
  let path := Path.dirname fname in
  let '(name, extension) := Path.splitext (Path.basename fname) in
  match format out_pattern name extension with
  | Some out_name => Some (Path.join path out_name)
  | None => None
  end.

End OutName.

(** A formatter for the patterns made of literal text, doubled braces and
    the two plain fields; it reads the pattern with one state: outside a
    field, inside one (with the name read so far), or after a closing
    brace met outside a field. *)
Inductive format_state : Type :=
  | Outside
  | Inside (name : string)
  | Closing.

Fixpoint simple_format_from (st : format_state) (pattern : string)
    (filename extension : string) : option string :=
  match pattern with
  | EmptyString => match st with Outside => Some EmptyString | _ => None end
  | String c rest =>
      match st with
      | Outside =>
          if Ascii.eqb c "{" then
            simple_format_from (Inside EmptyString) rest filename extension
          else if Ascii.eqb c "}" then
            simple_format_from Closing rest filename extension
          else option_map (String c)
                 (simple_format_from Outside rest filename extension)
      | Closing =>
          if Ascii.eqb c "}" then
            option_map (String c)
              (simple_format_from Outside rest filename extension)
          else None
      | Inside name =>
          if Ascii.eqb c "{" then
            match name with
            | EmptyString =>
                option_map (String c)
                  (simple_format_from Outside rest filename extension)
            | _ => None
            end
          else if Ascii.eqb c "}" then
            if String.eqb name "filename" then
              option_map (String.append filename)
                (simple_format_from Outside rest filename extension)
            else if String.eqb name "extension" then
              option_map (String.append extension)
                (simple_format_from Outside rest filename extension)
            else None
          else simple_format_from (Inside (name +:+ String c EmptyString))
                 rest filename extension
      end
  end.

Definition simple_format (pattern filename extension : string)
  : option string :=
  simple_format_from Outside pattern filename extension.

(** ** Auxiliary notions for the properties of the whole tree *)


(** Two elements that differ at most in their text. *)
Definition retexted (k k' : element) : Prop :=
  tag k' = tag k /\ children k' = children k.

(** ** Facts about the reconciliation of the line count *)

Section ReconcileFacts.

Lemma pop_snoc (l : list string) (x : string) : pop (l ++ [x]) = Some (x, l).
Proof.
  unfold pop. rewrite last_snoc. now rewrite removelast_last.
Qed.

(** Popping as many items as a suffix has returns that suffix backwards. *)
Lemma pop_many_app (l popped : list string) :
  pop_many (length popped) (l ++ popped) = Res (reverse popped, l).
Proof.
  induction popped as [|x popped IH] using rev_ind.
  - simpl. now rewrite app_nil_r.
  - rewrite length_app, Nat.add_comm. simpl.
    rewrite app_assoc, pop_snoc, IH. now rewrite reverse_snoc.
Qed.

Lemma merge_into_last_snoc (l : list string) (x tail : string) :
  merge_into_last (l ++ [x]) tail = Res (l ++ [Py.join " " [x; tail]]).
Proof.
  unfold merge_into_last. rewrite last_snoc. now rewrite removelast_last.
Qed.

(** More lines than fragments: the lines beyond the last fragment's are
    joined to it, the last of them first. *)
Lemma reconcile_longer (front overflow : list string) (x : string) :
  overflow <> [] ->
  reconcile (S (length front)) (front ++ x :: overflow)
  = Res (front ++ [Py.join " " [x; Py.join " " (reverse overflow)]]).
Proof.
  intros Hne. unfold reconcile.
  assert (Hlen : length (front ++ x :: overflow)
                 = S (length front) + length overflow)
    by (rewrite length_app; simpl; lia).
  assert (0 < length overflow) by (destruct overflow; simpl; [done | lia]).
  rewrite Hlen.
  destruct (Nat.ltb_spec (S (length front))
              (S (length front) + length overflow)) as [_ | ?]; [| lia].
  replace (S (length front) + length overflow - S (length front))
    with (length overflow) by lia.
  replace (front ++ x :: overflow) with ((front ++ [x]) ++ overflow)
    by now rewrite <- app_assoc.
  rewrite pop_many_app, merge_into_last_snoc.
  destruct (Nat.ltb_spec (S (length front) + length overflow)
              (S (length front))) as [? | _]; [lia | done].
Qed.

(** Fewer lines than fragments: empty lines are appended. *)
Lemma reconcile_shorter (size k : nat) (lines : list string) :
  0 < k -> length lines + k = size ->
  reconcile size lines = Res (lines ++ replicate k ""%string).
Proof.
  intros Hk Hsize. unfold reconcile.
  destruct (Nat.ltb_spec size (length lines)) as [? | _]; [lia |].
  destruct (Nat.ltb_spec (length lines) size) as [_ | ?]; [| lia].
  now replace (size - length lines) with k by lia.
Qed.

Lemma reconcile_same (lines : list string) :
  reconcile (length lines) lines = Res lines.
Proof.
  unfold reconcile. now rewrite Nat.ltb_irrefl.
Qed.

(** For a paragraph that has a fragment the reconciliation never raises
    and delivers one line per fragment. *)
Lemma reconcile_length (size : nat) (lines : list string) :
  0 < size ->
  exists lines', reconcile size lines = Res lines' /\ length lines' = size.
Proof.
  intros Hsize.
  destruct (Nat.lt_trichotomy (length lines) size) as [Hlt | [Heq | Hgt]].
  - exists (lines ++ replicate (size - length lines) ""%string). split.
    + apply reconcile_shorter; lia.
    + rewrite length_app, length_replicate. lia.
  - exists lines. subst size. split; [apply reconcile_same | done].
  - destruct size as [|n]; [lia |].
    rewrite <- (take_drop n lines).
    assert (Htake : length (take n lines) = n)
      by (rewrite length_take; lia).
    destruct (drop n lines) as [|x overflow] eqn:Hdrop.
    { apply (f_equal length) in Hdrop. rewrite length_drop in Hdrop.
      simpl in Hdrop. lia. }
    assert (overflow <> []).
    { intros ->. apply (f_equal length) in Hdrop.
      rewrite length_drop in Hdrop. simpl in Hdrop. lia. }
    eexists. split.
    + rewrite <- Htake at 1. now apply reconcile_longer.
    + rewrite length_app. simpl. lia.
Qed.

End ReconcileFacts.

(** ** Facts about the assignment loop *)

Section AssignFacts.

Implicit Types (kids : list element) (paragraph : paragraph_t).
Implicit Types (lines : list string).

Lemma length_set_text kids child s :
  length (set_text child s kids) = length kids.
Proof. apply length_alter. Qed.

Lemma lookup_set_text_ne kids child s i :
  child <> i -> set_text child s kids !! i = kids !! i.
Proof. intros. now apply list_lookup_alter_ne. Qed.

Lemma text_at_set_text_eq kids child s :
  child < length kids -> text_at (set_text child s kids) child = Some s.
Proof.
  intros Hlt. unfold text_at, set_text. rewrite list_lookup_alter_eq.
  destruct (lookup_lt_is_Some_2 kids child Hlt) as [e ->]. done.
Qed.

Lemma text_at_set_text_ne kids child s i :
  child <> i -> text_at (set_text child s kids) i = text_at kids i.
Proof. intros. unfold text_at. now rewrite lookup_set_text_ne. Qed.

(** Setting a text changes neither a tag nor the children under it. *)
Lemma lookup_set_text_shape kids child s i :
  (tag <$> set_text child s kids !! i) = (tag <$> kids !! i)
  /\ (children <$> set_text child s kids !! i) = (children <$> kids !! i).
Proof.
  unfold set_text. destruct (decide (child = i)) as [-> | Hne].
  - rewrite list_lookup_alter_eq. now destruct (kids !! i) as [[]|].
  - now rewrite list_lookup_alter_ne.
Qed.

Lemma length_assign paragraph lines kids :
  length (assign paragraph lines kids) = length kids.
Proof.
  unfold assign. revert lines kids.
  induction paragraph as [|[h t] paragraph IH]; intros [|l lines] kids;
    simpl; try done.
  rewrite IH. apply length_set_text.
Qed.

(** A child the paragraph does not refer to is left as it is. *)
Lemma assign_frame paragraph lines kids i :
  i ∉ paragraph.*1 -> assign paragraph lines kids !! i = kids !! i.
Proof.
  unfold assign. revert lines kids.
  induction paragraph as [|[h t] paragraph IH]; intros [|l lines] kids Hi;
    simpl; try done.
  simpl in Hi. apply not_elem_of_cons in Hi as [Hne Hi].
  rewrite IH by done. now apply lookup_set_text_ne.
Qed.

(** The line at a position goes to the child at that position of the
    paragraph. *)
Lemma assign_lookup paragraph lines kids j h t l :
  NoDup paragraph.*1 ->
  paragraph !! j = Some (h, t) -> lines !! j = Some l ->
  h < length kids ->
  text_at (assign paragraph lines kids) h = Some l.
Proof.
  unfold assign. revert lines kids j.
  induction paragraph as [|[h0 t0] paragraph IH];
    intros [|l0 lines] kids j Hnd Hp Hl Hlt; try done.
  simpl in Hnd. apply NoDup_cons in Hnd as [Hfresh Hnd].
  destruct j as [|j]; simpl in *.
  - injection Hp as -> ->. injection Hl as ->.
    unfold text_at.
    change (foldl _ _ _) with (assign paragraph lines (set_text h l kids)).
    rewrite assign_frame by done.
    now apply text_at_set_text_eq.
  - apply (IH lines _ j); try done. now rewrite length_set_text.
Qed.

End AssignFacts.

(** ** Facts about the collection of a paragraph *)

Section CollectFacts.

Lemma elem_of_collect_from i kids h t :
  (h, t) ∈ collect_from i kids
  <-> exists k, i <= h /\ kids !! (h - i) = Some k /\ fragment_of k = Some t.
Proof.
  revert i. induction kids as [|k kids IH]; intros i; simpl.
  - split; [intros H; inversion H | intros (? & _ & ? & _); done].
  - assert (Hrest : (h, t) ∈ collect_from (S i) kids
                    <-> exists k', S i <= h /\ kids !! (h - S i) = Some k'
                                   /\ fragment_of k' = Some t) by apply IH.
    assert (Hsplit : (exists k', i <= h /\ (k :: kids) !! (h - i) = Some k'
                                 /\ fragment_of k' = Some t)
                     <-> (h = i /\ fragment_of k = Some t)
                         \/ (h, t) ∈ collect_from (S i) kids).
    { rewrite Hrest. split.
      - intros (k' & Hle & Hk' & Hf).
        destruct (decide (h = i)) as [-> | Hne].
        + rewrite Nat.sub_diag in Hk'. simpl in Hk'. injection Hk' as ->.
          now left.
        + right. exists k'. split; [lia |]. split; [| done].
          replace (h - i) with (S (h - S i)) in Hk' by lia. done.
      - intros [[-> Hf] | (k' & Hle & Hk' & Hf)].
        + exists k. rewrite Nat.sub_diag. done.
        + exists k'. split; [lia |]. split; [| done].
          replace (h - i) with (S (h - S i)) by lia. done. }
    rewrite Hsplit.
    destruct (fragment_of k) as [t0|] eqn:Hk.
    + rewrite elem_of_cons. split.
      * intros [Heq | Hin]; [| now right].
        injection Heq as -> ->. now left.
      * intros [[-> Heq] | Hin]; [| now right].
        injection Heq as ->. now left.
    + split; [now right | intros [[_ ?] | ?]; done].
Qed.

Lemma collect_from_bounds i kids h :
  h ∈ (collect_from i kids).*1 -> i <= h < i + length kids.
Proof.
  intros Hin. apply list_elem_of_fmap in Hin as ([h' t] & -> & Hin).
  apply elem_of_collect_from in Hin as (k & Hle & Hk & _). simpl.
  apply lookup_lt_Some in Hk. lia.
Qed.

(** The children of a paragraph appear in it in the order of the
    children list. *)
Lemma collect_from_sorted i kids :
  StronglySorted lt (collect_from i kids).*1.
Proof.
  revert i. induction kids as [|k kids IH]; intros i; simpl.
  - constructor.
  - destruct (fragment_of k); [| apply IH].
    simpl. constructor; [apply IH |].
    apply Forall_forall. intros h Hh.
    apply collect_from_bounds in Hh. lia.
Qed.

Lemma StronglySorted_lt_NoDup (l : list nat) : StronglySorted lt l -> NoDup l.
Proof.
  induction 1 as [|x l _ IH Hall]; constructor; [| done].
  intros Hin. rewrite Forall_forall in Hall. specialize (Hall x Hin). lia.
Qed.

Lemma collect_paragraph_NoDup kids : NoDup (collect_paragraph kids).*1.
Proof. apply StronglySorted_lt_NoDup, collect_from_sorted. Qed.

Lemma collect_paragraph_in_range kids h :
  h ∈ (collect_paragraph kids).*1 -> h < length kids.
Proof. intros Hin. apply collect_from_bounds in Hin. lia. Qed.

(** Only the children that contribute a fragment count for the size. *)
Lemma length_collect_from i kids :
  length (collect_from i kids) = length (List.filter is_fragment kids).
Proof.
  revert i. induction kids as [|k kids IH]; intros i; simpl; [done |].
  unfold is_fragment at 1. destruct (fragment_of k); simpl; now rewrite IH.
Qed.

End CollectFacts.

(** ** Facts about the translation calls *)

Section TranslateFacts.

Variable endpoint : request -> option (list string).
Variable sent_tokenize : string -> list string.
Variable wrap : string -> Z -> result (list string).
Variable from_lang : option string.
Variable to_lang : string.

Local Abbreviation translation_of' :=
  (translation_of endpoint from_lang to_lang).
Local Abbreviation spec_wrapped_text' :=
  (spec_wrapped_text sent_tokenize wrap).

Lemma translate_run (s : string) (log : list string) :
  translate endpoint from_lang to_lang s log
  = match translation_of' s with
    | Some trans => Ok trans (log ++ [s])
    | None => Raise TranslationError (log ++ [s])
    end.
Proof.
  unfold translate, translation_of.
  destruct (endpoint _) as [[|trans rest]|]; done.
Qed.

(** Translating a list of sentences that all get an answer: the answers
    in order, and one call per sentence, in order. *)
Lemma mapM_translate_ok (sentences translations log : list string) :
  Forall2 (fun s t => translation_of' s = Some t) sentences translations ->
  mapM (translate endpoint from_lang to_lang) sentences log
  = Ok translations (log ++ sentences).
Proof.
  intros Hall. revert log.
  induction Hall as [|s t sentences translations Hst _ IH]; intros log.
  - simpl. unfold ret. now rewrite app_nil_r.
  - simpl. unfold bind at 1. rewrite translate_run, Hst.
    unfold bind at 1. rewrite IH. unfold ret.
    now rewrite <- app_assoc.
Qed.

Lemma mapM_translate_map (tr : string -> string) (sentences log : list string) :
  (forall s, s ∈ sentences -> translation_of' s = Some (tr s)) ->
  mapM (translate endpoint from_lang to_lang) sentences log
  = Ok (map tr sentences) (log ++ sentences).
Proof.
  intros Htr. apply mapM_translate_ok.
  induction sentences as [|s sentences IH]; constructor.
  - apply Htr. left.
  - apply IH. intros s' Hs'. apply Htr. now right.
Qed.

Lemma foldl_max_list (x : nat) (l : list nat) :
  foldl Nat.max x l = x `max` max_list l.
Proof.
  revert x. induction l as [|y l IH]; intros x; simpl.
  - lia.
  - rewrite IH. lia.
Qed.

Lemma Py_max_cons (x : nat) (l : list nat) :
  Py.max (x :: l) = Some (max_list (x :: l)).
Proof. simpl. now rewrite foldl_max_list. Qed.

Lemma raw_paragraph_of_fragments (paragraph : paragraph_t) :
  raw_paragraph_of paragraph = Py.join " " (map Py.strip paragraph.*2).
Proof.
  unfold raw_paragraph_of. f_equal.
  induction paragraph as [|[h t] paragraph IH]; simpl; [done |].
  now rewrite IH.
Qed.

Lemma lengths_of_fragments (paragraph : paragraph_t) :
  map (fun ct => Py.len (snd ct)) paragraph = map Py.len paragraph.*2.
Proof.
  induction paragraph as [|[h t] paragraph IH]; simpl; [done |].
  now rewrite IH.
Qed.

Lemma reflow_lines_run (tr : string -> string) (paragraph : paragraph_t)
    (log : list string) :
  paragraph <> [] ->
  Py.lower (raw_paragraph_of paragraph) <> "creative commons"%string ->
  (forall s, s ∈ sent_tokenize (raw_paragraph_of paragraph) ->
             translation_of' s = Some (tr s)) ->
  reflow_lines endpoint sent_tokenize wrap from_lang to_lang paragraph log
  = match spec_wrapped_text' tr paragraph.*2 with
    | Res lines =>
        Ok (Some lines) (log ++ sent_tokenize (raw_paragraph_of paragraph))
    | Exc e => Raise e (log ++ sent_tokenize (raw_paragraph_of paragraph))
    end.
Proof.
  intros Hne Hcc Htr. unfold reflow_lines, spec_wrapped_text.
  rewrite <- raw_paragraph_of_fragments, lengths_of_fragments.
  destruct paragraph.*2 as [|t fragments] eqn:Hfr.
  { destruct paragraph; done. }
  cbn [map]. rewrite Py_max_cons. unfold bind at 1. cbn [lift].
  destruct (String.eqb_spec (Py.lower (raw_paragraph_of paragraph))
              "creative commons") as [Heq | _]; [done |].
  unfold bind at 1. rewrite (mapM_translate_map tr) by done.
  unfold bind, lift, ret.
  now destruct (wrap _ _).
Qed.

End TranslateFacts.

(** ** Properties of the re-flow of a paragraph *)

Section Reflow.

Variable endpoint : request -> option (list string).
Variable sent_tokenize : string -> list string.
Variable wrap : string -> Z -> result (list string).
Variable from_lang : option string.
Variable to_lang : string.

Local Abbreviation reflow_lines' :=
  (reflow_lines endpoint sent_tokenize wrap from_lang to_lang).
Local Abbreviation translate_split_paragraph' :=
  (translate_split_paragraph endpoint sent_tokenize wrap from_lang to_lang).
Local Abbreviation translate_paragraph' :=
  (translate_paragraph endpoint sent_tokenize wrap from_lang to_lang).
Local Abbreviation translate_text_element' :=
  (translate_text_element endpoint sent_tokenize wrap from_lang to_lang).
Local Abbreviation translation_of' :=
  (translation_of endpoint from_lang to_lang).

(** A paragraph that gets as far as wrapping has a fragment. *)
Lemma reflow_lines_nonempty paragraph log wrapped log' :
  reflow_lines' paragraph log = Ok (Some wrapped) log' -> 0 < length paragraph.
Proof.
  destruct paragraph; [| simpl; lia].
  unfold reflow_lines, bind. simpl. done.
Qed.

(** Once the wrapped lines are there, what is left is reconciliation and
    assignment; no further call is made. *)
Lemma translate_split_paragraph_run paragraph kids log wrapped log' :
  reflow_lines' paragraph log = Ok (Some wrapped) log' ->
  exists lines,
    reconcile (length paragraph) wrapped = Res lines
    /\ length lines = length paragraph
    /\ translate_split_paragraph' paragraph kids log
       = Ok (assign paragraph lines kids) log'.
Proof.
  intros Hrun.
  destruct (reconcile_length (length paragraph) wrapped) as (lines & Hrec & Hlen).
  { eapply reflow_lines_nonempty, Hrun. }
  exists lines. split; [done |]. split; [done |].
  unfold translate_split_paragraph, bind at 1.
  rewrite Hrun. unfold bind, lift, ret. now rewrite Hrec.
Qed.

(** What a run of [translate_split_paragraph'] can have done to the
    children: nothing, or the assignment of some lines. *)
Lemma translate_split_paragraph_inv paragraph kids log kids' log' :
  translate_split_paragraph' paragraph kids log = Ok kids' log' ->
  kids' = kids \/ exists lines, kids' = assign paragraph lines kids.
Proof.
  unfold translate_split_paragraph, bind at 1.
  destruct (reflow_lines' paragraph log) as [[wrapped|] log1 | e log1];
    [| unfold ret; intros [= <- <-]; now left | done].
  unfold bind, lift, ret.
  destruct (reconcile _ _) as [lines | e]; [| done].
  intros [= <- <-]. right. now exists lines.
Qed.

(** C2: for a paragraph of at least two fragments that is not the
    creative-commons case, and whose sentences all get a translation, the
    lines the program wraps are [wrap(T, m - 1)] with [T] the space-join
    of the translations of the sentences of the space-joined stripped
    fragments and [m] the greatest length of an original fragment; one
    call is made per sentence, in order. *)
Theorem wrapped_text_is_wrap_of_translation
    (tr : string -> string) (paragraph : paragraph_t) (log : list string) :
  2 <= length paragraph ->
  Py.lower (raw_paragraph_of paragraph) <> "creative commons"%string ->
  (forall s, s ∈ sent_tokenize (raw_paragraph_of paragraph) ->
             translation_of' s = Some (tr s)) ->
  reflow_lines' paragraph log
  = match spec_wrapped_text sent_tokenize wrap tr paragraph.*2 with
    | Res lines =>
        Ok (Some lines) (log ++ sent_tokenize (raw_paragraph_of paragraph))
    | Exc e => Raise e (log ++ sent_tokenize (raw_paragraph_of paragraph))
    end.
Proof.
  intros Hsize Hcc Htr. apply reflow_lines_run; try done.
  intros ->. simpl in Hsize. lia.
Qed.

(** C3: when the translation of a paragraph of [n] fragments wraps into
    [n - k] lines, [k > 0], the first [n - k] elements receive those lines
    in order and each of the last [k] elements receives the empty
    string. *)
Theorem fewer_lines_are_padded
    (paragraph : paragraph_t) (kids : list element) (log log' : list string)
    (wrapped : list string) (k : nat) :
  NoDup paragraph.*1 ->
  Forall (fun h => h < length kids) paragraph.*1 ->
  reflow_lines' paragraph log = Ok (Some wrapped) log' ->
  0 < k ->
  length wrapped + k = length paragraph ->
  exists kids',
    translate_split_paragraph' paragraph kids log = Ok kids' log'
    /\ (forall j h t l, paragraph !! j = Some (h, t) -> wrapped !! j = Some l ->
                        text_at kids' h = Some l)
    /\ (forall j h t, paragraph !! j = Some (h, t) -> length wrapped <= j ->
                      text_at kids' h = Some ""%string).
Proof.
  intros Hnd Hrange Hrun Hk Hlen.
  destruct (translate_split_paragraph_run paragraph kids log wrapped log' Hrun)
    as (lines & Hrec & _ & Hres).
  rewrite (reconcile_shorter _ k) in Hrec by done. injection Hrec as <-.
  exists (assign paragraph (wrapped ++ replicate k ""%string) kids).
  split; [done |].
  assert (Hin : forall j h t, paragraph !! j = Some (h, t) -> h < length kids).
  { intros j h t Hj. rewrite Forall_forall in Hrange. apply Hrange.
    apply list_elem_of_fmap. exists (h, t). split; [done |].
    eapply list_elem_of_lookup_2, Hj. }
  split.
  - intros j h t l Hj Hl. apply (assign_lookup _ _ _ j h t); eauto.
    rewrite lookup_app_l by (eapply lookup_lt_Some, Hl). done.
  - intros j h t Hj Hge. apply (assign_lookup _ _ _ j h t); eauto.
    rewrite lookup_app_r by done. apply lookup_replicate_2.
    apply lookup_lt_Some in Hj. lia.
Qed.

(** C7: the paragraph lists the fragment-bearing children in the order of
    the children list, and the lines go back to them in that order: the
    child at position [j] of the paragraph receives line [j]. *)
Theorem paragraph_follows_document_order
    (kids : list element) (log log' : list string) (wrapped : list string) :
  reflow_lines' (collect_paragraph kids) log = Ok (Some wrapped) log' ->
  StronglySorted lt (collect_paragraph kids).*1
  /\ (forall h t, (h, t) ∈ collect_paragraph kids
                  <-> exists k, kids !! h = Some k /\ fragment_of k = Some t)
  /\ exists lines,
       reconcile (length (collect_paragraph kids)) wrapped = Res lines
       /\ length lines = length (collect_paragraph kids)
       /\ translate_split_paragraph' (collect_paragraph kids) kids log
          = Ok (assign (collect_paragraph kids) lines kids) log'
       /\ forall j h t, collect_paragraph kids !! j = Some (h, t) ->
            text_at (assign (collect_paragraph kids) lines kids) h = lines !! j.
Proof.
  intros Hrun. split; [apply collect_from_sorted |]. split.
  - intros h t. unfold collect_paragraph. rewrite elem_of_collect_from.
    rewrite Nat.sub_0_r. split.
    + intros (k & _ & Hk & Hf). eauto.
    + intros (k & Hk & Hf). exists k. split; [lia | done].
  - destruct (translate_split_paragraph_run _ kids _ _ _ Hrun)
      as (lines & Hrec & Hlen & Hres).
    exists lines. do 3 (split; [done |]).
    intros j h t Hj.
    destruct (lookup_lt_is_Some_2 lines j) as [l Hl].
    { rewrite Hlen. eapply lookup_lt_Some, Hj. }
    rewrite Hl. apply (assign_lookup _ _ _ j h t); try done.
    + apply collect_paragraph_NoDup.
    + apply collect_paragraph_in_range. apply list_elem_of_fmap.
      exists (h, t). split; [done |]. eapply list_elem_of_lookup_2, Hj.
Qed.

(** C4, as the program has it: a paragraph of two or more fragments whose
    stripped fragments, space-joined, read "creative commons" in any case
    is returned as it is, and no call is made for it. *)
Theorem creative_commons_paragraph_untouched
    (paragraph : paragraph_t) (kids : list element) (log : list string) :
  2 <= length paragraph ->
  Py.lower (raw_paragraph_of paragraph) = "creative commons"%string ->
  translate_paragraph' paragraph kids log = Ok kids log.
Proof.
  intros Hsize Hcc.
  destruct paragraph as [|[h1 t1] [|[h2 t2] paragraph]];
    [simpl in Hsize; lia | simpl in Hsize; lia |].
  unfold translate_paragraph, translate_split_paragraph, reflow_lines.
  rewrite lengths_of_fragments. cbn [fmap list_fmap map snd].
  rewrite Py_max_cons. unfold bind at 2. cbn [lift].
  rewrite Hcc. done.
Qed.

(** The early return: a paragraph that has a fragment and whose raw text
    is the creative-commons case comes back as it is, without a call. *)
Lemma translate_split_paragraph_creative_commons
    (paragraph : paragraph_t) (kids : list element) (log : list string) :
  paragraph <> [] ->
  Py.lower (raw_paragraph_of paragraph) = "creative commons"%string ->
  translate_split_paragraph' paragraph kids log = Ok kids log.
Proof.
  intros Hne Hcc.
  unfold translate_split_paragraph, reflow_lines.
  rewrite lengths_of_fragments.
  destruct paragraph.*2 as [|t fragments] eqn:Hfr.
  { destruct paragraph; done. }
  cbn [map]. rewrite Py_max_cons. unfold bind at 2. cbn [lift].
  rewrite Hcc. done.
Qed.

(** C6, as the program has it: under the identity translation, when the
    sentences of the raw paragraph join back to it and wrapping it at the
    program's width gives the stripped fragments back, every element
    receives its own stripped text; the one exception is the
    creative-commons case, in which every element is left as it is and no
    call is made. *)
Theorem identity_round_trip_when_breaks_agree
    (paragraph : paragraph_t) (kids : list element) (log : list string) :
  NoDup paragraph.*1 ->
  Forall (fun h => h < length kids) paragraph.*1 ->
  paragraph <> [] ->
  (forall s, s ∈ sent_tokenize (raw_paragraph_of paragraph) ->
             translation_of' s = Some s) ->
  Py.join " " (sent_tokenize (raw_paragraph_of paragraph))
  = raw_paragraph_of paragraph ->
  wrap (raw_paragraph_of paragraph)
       (Z.of_nat (max_list (map Py.len paragraph.*2)) - 1)
  = Res (map Py.strip paragraph.*2) ->
  (Py.lower (raw_paragraph_of paragraph) = "creative commons"%string ->
   translate_split_paragraph' paragraph kids log = Ok kids log)
  /\ (Py.lower (raw_paragraph_of paragraph) <> "creative commons"%string ->
      exists kids',
        translate_split_paragraph' paragraph kids log
        = Ok kids' (log ++ sent_tokenize (raw_paragraph_of paragraph))
        /\ forall j h t, paragraph !! j = Some (h, t) ->
             text_at kids' h = Some (Py.strip t)).
Proof.
  intros Hnd Hrange Hne Hid Hjoin Hwrap. split.
  { intros Hcc. now apply translate_split_paragraph_creative_commons. }
  intros Hcc.
  assert (Hrun : reflow_lines' paragraph log
                 = Ok (Some (map Py.strip paragraph.*2))
                      (log ++ sent_tokenize (raw_paragraph_of paragraph))).
  { rewrite (reflow_lines_run _ _ _ _ _ (fun s => s)) by done.
    unfold spec_wrapped_text. rewrite <- raw_paragraph_of_fragments.
    rewrite map_id, Hjoin, Hwrap. done. }
  destruct (translate_split_paragraph_run _ kids _ _ _ Hrun)
    as (lines & Hrec & _ & Hres).
  replace (length paragraph) with (length (map Py.strip paragraph.*2)) in Hrec
    by now rewrite length_map, length_fmap.
  rewrite reconcile_same in Hrec. injection Hrec as <-.
  eexists. split; [exact Hres |].
  intros j h t Hj. apply (assign_lookup _ _ _ j h t); try done.
  - change (map Py.strip paragraph.*2) with (Py.strip <$> paragraph.*2).
    rewrite list_lookup_fmap, list_lookup_fmap, Hj. done.
  - rewrite Forall_forall in Hrange. apply Hrange. apply list_elem_of_fmap.
    exists (h, t). split; [done |]. eapply list_elem_of_lookup_2, Hj.
Qed.

(** Whatever is done with a paragraph leaves alone the children it does
    not refer to. *)
Lemma translate_paragraph_frame paragraph kids log kids' log' i :
  translate_paragraph' paragraph kids log = Ok kids' log' ->
  i ∉ paragraph.*1 -> kids' !! i = kids !! i.
Proof.
  intros Hrun Hi.
  destruct paragraph as [|[h1 t1] [|[h2 t2] paragraph]].
  - injection Hrun as <- <-. done.
  - unfold translate_paragraph, bind in Hrun. rewrite translate_run in Hrun.
    destruct (translation_of' t1); [| done].
    injection Hrun as <- <-. apply lookup_set_text_ne.
    simpl in Hi. apply not_elem_of_cons in Hi as [Hi _]. done.
  - apply translate_split_paragraph_inv in Hrun as [-> | [lines ->]]; [done |].
    now apply assign_frame.
Qed.

(** C10: a child of a text element whose tag is not a tspan tag, or whose
    text is missing or empty, is not in the paragraph, comes out of the
    processing of the text element exactly as it went in, and is not
    counted in the size of the paragraph. *)
Theorem excluded_children_untouched
    (e : element) (i : nat) (k : element) (log : list string)
    (e' : element) (log' : list string) :
  children e !! i = Some k ->
  TSPAN_TAG (tag k) = false \/ text k = None \/ text k = Some ""%string ->
  translate_text_element' e log = Ok e' log' ->
  (i ∉ (collect_paragraph (children e)).*1)
  /\ children e' !! i = Some k
  /\ is_fragment k = false
  /\ length (collect_paragraph (children e))
     = length (List.filter is_fragment (children e)).
Proof.
  intros Hk Hexcl Hrun.
  assert (Hfrag : fragment_of k = None).
  { unfold fragment_of. destruct Hexcl as [-> | [-> | ->]]; [done | |];
      now destruct (TSPAN_TAG (tag k)). }
  assert (Hout : i ∉ (collect_paragraph (children e)).*1).
  { intros Hin. apply list_elem_of_fmap in Hin as ([h t] & Heq & Hin).
    simpl in Heq. subst h.
    apply elem_of_collect_from in Hin as (k' & _ & Hk' & Hf).
    rewrite Nat.sub_0_r, Hk in Hk'. injection Hk' as <-. congruence. }
  split; [done |]. split; [| split].
  - unfold translate_text_element, bind at 1 in Hrun.
    destruct (translate_own_text _ _ _ e log) as [own log1 | ? ?]; [| done].
    unfold bind in Hrun.
    destruct (translate_paragraph' _ (children e) log1)
      as [kids' log2 | ? ?] eqn:Hpar; [| done].
    unfold ret in Hrun. injection Hrun as <- <-. simpl.
    rewrite (translate_paragraph_frame _ _ _ _ _ i Hpar Hout). done.
  - unfold is_fragment. now rewrite Hfrag.
  - apply length_collect_from.
Qed.

(** X16: more lines than fragments, in general: the elements before the
    last receive their lines, and the last one receives its line followed
    by the lines beyond it in reverse order. *)
Lemma more_lines_are_merged
    (paragraph : paragraph_t) (kids : list element) (log log' : list string)
    (front overflow : list string) (x : string) :
  NoDup paragraph.*1 ->
  Forall (fun h => h < length kids) paragraph.*1 ->
  reflow_lines' paragraph log = Ok (Some (front ++ x :: overflow)) log' ->
  overflow <> [] ->
  length paragraph = S (length front) ->
  exists kids',
    translate_split_paragraph' paragraph kids log = Ok kids' log'
    /\ (forall j h t l, paragraph !! j = Some (h, t) -> front !! j = Some l ->
                        text_at kids' h = Some l)
    /\ (forall h t, paragraph !! length front = Some (h, t) ->
          text_at kids' h
          = Some (Py.join " " [x; Py.join " " (reverse overflow)])).
Proof.
  intros Hnd Hrange Hrun Hover Hsize.
  destruct (translate_split_paragraph_run paragraph kids log _ log' Hrun)
    as (lines & Hrec & _ & Hres).
  rewrite Hsize, reconcile_longer in Hrec by done. injection Hrec as <-.
  eexists. split; [exact Hres |].
  assert (Hin : forall j h t, paragraph !! j = Some (h, t) -> h < length kids).
  { intros j h t Hj. rewrite Forall_forall in Hrange. apply Hrange.
    apply list_elem_of_fmap. exists (h, t). split; [done |].
    eapply list_elem_of_lookup_2, Hj. }
  split.
  - intros j h t l Hj Hl. apply (assign_lookup _ _ _ j h t); eauto.
    rewrite lookup_app_l by (eapply lookup_lt_Some, Hl). done.
  - intros h t Hj. apply (assign_lookup _ _ _ (length front) h t); eauto.
    rewrite lookup_app_r by done. now rewrite Nat.sub_diag.
Qed.

(** The program is the width-parametric re-flow at [max_size - 1]. *)
Lemma translate_split_paragraph_width (paragraph : paragraph_t)
    (kids : list element) (log : list string) :
  paragraph <> [] ->
  translate_split_paragraph' paragraph kids log
  = translate_split_paragraph_at endpoint sent_tokenize wrap from_lang to_lang
      (Z.of_nat (max_list (map Py.len paragraph.*2)) - 1) paragraph kids log.
Proof.
  intros Hne.
  unfold translate_split_paragraph, translate_split_paragraph_at.
  unfold reflow_lines, reflow_lines_at.
  rewrite lengths_of_fragments.
  destruct paragraph.*2 as [|t fragments] eqn:Hfr.
  { destruct paragraph; done. }
  cbn [map]. rewrite Py_max_cons. done.
Qed.

End Reflow.

(** ** The single-fragment path *)

(** What is done with a paragraph of one fragment: one call, for the text
    of the fragment as it stands. *)
Lemma translate_paragraph_single
    (endpoint : request -> option (list string))
    (sent_tokenize : string -> list string)
    (wrap : string -> Z -> result (list string))
    (from_lang : option string) (to_lang : string)
    (kids : list element) (child : nat) (t trans : string)
    (log : list string) :
  translation_of endpoint from_lang to_lang t = Some trans ->
  translate_paragraph endpoint sent_tokenize wrap from_lang to_lang
    [(child, t)] kids log
  = Ok (set_text child trans kids) (log ++ [t]).
Proof.
  intros Htrans. unfold translate_paragraph, bind.
  rewrite translate_run, Htrans. done.
Qed.

(** C9: a text element whose paragraph has exactly one fragment has that
    fragment translated as a whole: after the element's own text is dealt
    with, the one call made is for the fragment's text as it stands, its
    answer becomes the text of that child and of no other, and neither
    the tokenizer nor the wrapper has a say, whatever the text (so also
    for "Creative Commons"). *)
Theorem single_fragment_translated_directly
    (endpoint : request -> option (list string))
    (sent_tokenize sent_tokenize' : string -> list string)
    (wrap wrap' : string -> Z -> result (list string))
    (from_lang : option string) (to_lang : string)
    (e : element) (child : nat) (t trans : string)
    (own : option string) (log log1 : list string) :
  collect_paragraph (children e) = [(child, t)] ->
  translation_of endpoint from_lang to_lang t = Some trans ->
  translate_own_text endpoint from_lang to_lang e log = Ok own log1 ->
  translate_text_element endpoint sent_tokenize wrap from_lang to_lang e log
  = Ok (Element (tag e) own (set_text child trans (children e)))
       (log1 ++ [t])
  /\ text_at (set_text child trans (children e)) child = Some trans
  /\ (forall i, i <> child ->
                set_text child trans (children e) !! i = children e !! i)
  /\ translate_text_element endpoint sent_tokenize' wrap' from_lang to_lang
       e log
     = translate_text_element endpoint sent_tokenize wrap from_lang to_lang
         e log.
Proof.
  intros Hpar Htrans Hown.
  assert (Hrun : forall st w,
            translate_text_element endpoint st w from_lang to_lang e log
            = Ok (Element (tag e) own (set_text child trans (children e)))
                 (log1 ++ [t])).
  { intros st w. unfold translate_text_element, bind at 1.
    rewrite Hown, Hpar. unfold bind.
    rewrite (translate_paragraph_single _ _ _ _ _ _ _ _ trans) by done.
    done. }
  split; [apply Hrun |]. split; [| split].
  - apply text_at_set_text_eq. apply collect_paragraph_in_range.
    rewrite Hpar. simpl. left.
  - intros i Hi. apply lookup_set_text_ne. congruence.
  - now rewrite !Hrun.
Qed.

(** ** Validation of the input paths *)

Section Validation.

Variable endpoint : request -> option (list string).
Variable sent_tokenize : string -> list string.
Variable wrap : string -> Z -> result (list string).
Variable from_lang : option string.
Variable to_lang : string.
Variable path_kind_of : string -> path_kind.
Variable parse : string -> result element.

Local Abbreviation validate_file' := (validate_file path_kind_of).
Local Abbreviation accepted' := (accepted path_kind_of).
Local Abbreviation validate_all' := (validate_all path_kind_of).
Local Abbreviation fnames_of' := (fnames_of path_kind_of).





(** A directory whose name ends in "svg" passes both tests and fails the
    third: [validate_file] falls off its end, nothing is logged, and the
    path is dropped all the same. *)
Lemma directory_is_dropped_silently (fname : string) :
  path_kind_of fname = Directory -> Py.endswith fname "svg" = true ->
  validate_file' fname = (None, []) /\ accepted' fname = false.
Proof.
  intros Hdir Hsvg. unfold accepted, validate_file, path_exists, path_isfile.
  rewrite Hdir, Hsvg. done.
Qed.


End Validation.

(** ** The program on concrete documents *)

(** C1: a paragraph of two fragments whose translation wraps into four
    lines.  Both elements get a line, but the last one reads
    "gosto gatos de": the lines beyond the last fragment's are appended in
    reverse, whereas the three trailing lines in their order read
    "gosto de gatos". *)
Theorem overflow_merge_reverses_tail :
  let paragraph := [(0, "I like"); (1, "cats")]%string in
  let kids := [tspan "I like"; tspan "cats"] in
  let wrapped := ["Eu"; "gosto"; "de"; "gatos"]%string in
  reflow_lines (table_endpoint phrasebook) single_sentence Textwrap.wrap
    None "pt" paragraph []
  = Ok (Some wrapped) ["I like cats"%string]
  /\ translate_split_paragraph (table_endpoint phrasebook) single_sentence
       Textwrap.wrap None "pt" paragraph kids []
     = Ok [tspan "Eu"; tspan "gosto gatos de"] ["I like cats"%string]
  /\ Py.join " " (drop 1 wrapped) = "gosto de gatos"%string.
Proof. vm_compute. repeat split. Qed.

(** C5: the text of a text element is tested with [match], which looks at
    its first character only: "2 * 3 = 6" contains two of the characters
    and is sent to translation and replaced, while the same text in a
    tspan is left alone. *)
Theorem invalid_text_element_is_translated :
  INVALID_TEXT_findall "2 * 3 = 6" = true
  /\ translate_file (table_endpoint phrasebook) single_sentence Textwrap.wrap
       None "pt" (Element svg_text (Some "2 * 3 = 6"%string) []) []
     = Ok (Element svg_text (Some "dois vezes tres"%string) [])
          ["2 * 3 = 6"%string]
  /\ translate_file (table_endpoint phrasebook) single_sentence Textwrap.wrap
       None "pt" (Element svg_text None [tspan "2 * 3 = 6"]) []
     = Ok (Element svg_text None [tspan "2 * 3 = 6"]) [].
Proof. vm_compute. repeat split. Qed.

(** C4 fails on the single-fragment path: a lone tspan reading
    "Creative Commons" is a paragraph whose raw text is the special case,
    and it is sent to translation and replaced. *)
Lemma lone_creative_commons_fragment_is_translated :
  let kids := [tspan "Creative Commons"] in
  Py.lower (raw_paragraph_of (collect_paragraph kids))
  = "creative commons"%string
  /\ translate_file (table_endpoint phrasebook) single_sentence Textwrap.wrap
       None "pt" (Element svg_text None kids) []
     = Ok (Element svg_text None [tspan "Bens Comuns Criativos"])
          ["Creative Commons"%string].
Proof. vm_compute. split; reflexivity. Qed.

(** C6 fails: under the identity translation the fragments "a" and "b cd"
    come back as "a b" and "cd", both at a wrap width equal to the greatest
    fragment length and at the width the program itself takes. *)
Lemma identity_round_trip_fails :
  let paragraph := [(0, "a"); (1, "b cd")]%string in
  let kids := [tspan "a"; tspan "b cd"] in
  (forall s, translation_of echo_endpoint None "en" s = Some s)
  /\ (4 >= Z.of_nat (max_list (map Py.len paragraph.*2)))%Z
  /\ translate_split_paragraph_at echo_endpoint single_sentence Textwrap.wrap
       None "en" 4 paragraph kids []
     = Ok [tspan "a b"; tspan "cd"] ["a b cd"%string]
  /\ translate_split_paragraph echo_endpoint single_sentence Textwrap.wrap
       None "en" paragraph kids []
     = Ok [tspan "a b"; tspan "cd"] ["a b cd"%string]
  /\ Py.normalize "a b" <> Py.normalize "a"
  /\ Py.normalize "cd" <> Py.normalize "b cd".
Proof.
  split; [reflexivity |]. vm_compute. repeat split; discriminate.
Qed.

(** ** The general results at concrete inputs *)

Lemma wrapped_text_is_wrap_of_translation_witness :
  reflow_lines (table_endpoint phrasebook) single_sentence Textwrap.wrap
    None "pt" [(0, "Hello dear"); (1, "world")]%string []
  = Ok (Some ["Oi mundo"%string]) ["Hello dear world"%string].
Proof.
  apply (wrapped_text_is_wrap_of_translation
           (table_endpoint phrasebook) single_sentence Textwrap.wrap None "pt"
           (table_lookup phrasebook)
           [(0, "Hello dear"); (1, "world")]%string []).
  - simpl. lia.
  - vm_compute. discriminate.
  - intros s _. reflexivity.
Defined.

Lemma fewer_lines_are_padded_witness :
  exists kids',
    translate_split_paragraph (table_endpoint phrasebook) single_sentence
      Textwrap.wrap None "pt" [(0, "Hello dear"); (1, "world")]%string
      [tspan "Hello dear"; tspan "world"] []
    = Ok kids' ["Hello dear world"%string]
    /\ text_at kids' 0 = Some "Oi mundo"%string
    /\ text_at kids' 1 = Some ""%string.
Proof.
  destruct (fewer_lines_are_padded
              (table_endpoint phrasebook) single_sentence Textwrap.wrap
              None "pt" [(0, "Hello dear"); (1, "world")]%string
              [tspan "Hello dear"; tspan "world"] []
              ["Hello dear world"%string] ["Oi mundo"%string] 1)
    as (kids' & Hrun & Hfirst & Hlast).
  - apply (bool_decide_unpack _). vm_compute. exact I.
  - repeat constructor; simpl; lia.
  - vm_compute. reflexivity.
  - lia.
  - reflexivity.
  - exists kids'. split; [exact Hrun |]. split.
    + apply (Hfirst 0 0 "Hello dear"%string); reflexivity.
    + apply (Hlast 1 1 "world"%string); [reflexivity | simpl; lia].
Defined.

Lemma paragraph_follows_document_order_witness :
  let kids := [tspan "Hello dear";
               Element "{http://www.w3.org/2000/svg}title" (Some "x"%string) [];
               tspan "world"] in
  StronglySorted lt (collect_paragraph kids).*1
  /\ collect_paragraph kids = [(0, "Hello dear"); (2, "world")]%string.
Proof.
  intros kids.
  destruct (paragraph_follows_document_order
              echo_endpoint single_sentence Textwrap.wrap None "en" kids []
              ["Hello dear world"%string] ["Hello"; "dear"; "world"]%string)
    as (Hsorted & _ & _).
  - vm_compute. reflexivity.
  - split; [exact Hsorted | reflexivity].
Defined.

Lemma creative_commons_paragraph_untouched_witness :
  translate_paragraph (table_endpoint phrasebook) single_sentence
    Textwrap.wrap None "pt" [(0, "Creative "); (1, " COMMONS")]%string
    [tspan "Creative "; tspan " COMMONS"] []
  = Ok [tspan "Creative "; tspan " COMMONS"] [].
Proof.
  apply (creative_commons_paragraph_untouched
           (table_endpoint phrasebook) single_sentence Textwrap.wrap None "pt").
  - simpl. lia.
  - vm_compute. reflexivity.
Defined.

Lemma identity_round_trip_when_breaks_agree_witness :
  (exists kids',
      translate_split_paragraph echo_endpoint single_sentence Textwrap.wrap
        None "en" [(0, "aa bb "); (1, "cc")]%string
        [tspan "aa bb "; tspan "cc"] []
      = Ok kids' ([] ++ single_sentence "aa bb cc")
      /\ text_at kids' 0 = Some "aa bb"%string
      /\ text_at kids' 1 = Some "cc"%string)
  /\ translate_split_paragraph echo_endpoint single_sentence Textwrap.wrap
       None "en" [(0, "Creative "); (1, "Commons")]%string
       [tspan "Creative "; tspan "Commons"] []
     = Ok [tspan "Creative "; tspan "Commons"] [].
Proof.
  split.
  - destruct (identity_round_trip_when_breaks_agree
                echo_endpoint single_sentence Textwrap.wrap None "en"
                [(0, "aa bb "); (1, "cc")]%string
                [tspan "aa bb "; tspan "cc"] []) as [_ Hreflow].
    + apply (bool_decide_unpack _). vm_compute. exact I.
    + repeat constructor; simpl; lia.
    + discriminate.
    + intros s _. reflexivity.
    + reflexivity.
    + vm_compute. reflexivity.
    + destruct Hreflow as (kids' & Hrun & Htexts).
      { vm_compute. discriminate. }
      exists kids'. split; [exact Hrun |]. split.
      * apply (Htexts 0 0 "aa bb "%string). reflexivity.
      * apply (Htexts 1 1 "cc"%string). reflexivity.
  - apply (identity_round_trip_when_breaks_agree
             echo_endpoint single_sentence Textwrap.wrap None "en"
             [(0, "Creative "); (1, "Commons")]%string
             [tspan "Creative "; tspan "Commons"] []).
    + apply (bool_decide_unpack _). vm_compute. exact I.
    + repeat constructor; simpl; lia.
    + discriminate.
    + intros s _. reflexivity.
    + reflexivity.
    + vm_compute. reflexivity.
    + vm_compute. reflexivity.
Defined.

Lemma excluded_children_untouched_witness :
  let title := Element "{http://www.w3.org/2000/svg}title"
                 (Some "note"%string) [] in
  let e := Element svg_text None
             [tspan "Hello dear"; title; tspan ""; tspan "world"] in
  (1 ∉ (collect_paragraph (children e)).*1)
  /\ length (collect_paragraph (children e)) = 2.
Proof.
  intros title e.
  destruct (excluded_children_untouched
              (table_endpoint phrasebook) single_sentence Textwrap.wrap
              None "pt" e 1 title []
              (Element svg_text None
                 [tspan "Oi mundo"; title; tspan ""; tspan ""])
              ["Hello dear world"%string])
    as (Hout & _ & _ & Hsize).
  - reflexivity.
  - left. reflexivity.
  - vm_compute. reflexivity.
  - split; [exact Hout |]. rewrite Hsize. reflexivity.
Defined.

Lemma single_fragment_translated_directly_witness :
  translate_text_element (table_endpoint phrasebook) single_sentence
    Textwrap.wrap None "pt"
    (Element svg_text (Some "Hello dear world"%string)
       [tspan "Creative Commons"]) []
  = Ok (Element svg_text (Some "Oi mundo"%string)
          [tspan "Bens Comuns Criativos"])
       ["Hello dear world"; "Creative Commons"]%string.
Proof.
  apply (single_fragment_translated_directly
           (table_endpoint phrasebook) single_sentence single_sentence
           Textwrap.wrap Textwrap.wrap None "pt"
           (Element svg_text (Some "Hello dear world"%string)
              [tspan "Creative Commons"])
           0 "Creative Commons" "Bens Comuns Criativos"
           (Some "Oi mundo"%string) [] ["Hello dear world"%string]);
    reflexivity.
Defined.


(** ** Further properties: the tag patterns *)

Section Patterns.

Lemma string_app_assoc (a b c : string) : (a +:+ b) +:+ c = a +:+ (b +:+ c).
Proof.
  induction a as [|x a IH]; [reflexivity |].
  change (String x ((a +:+ b) +:+ c) = String x (a +:+ (b +:+ c))).
  now rewrite IH.
Qed.

Lemma string_app_nil_r (a : string) : a +:+ "" = a.
Proof.
  induction a as [|x a IH]; [reflexivity |].
  change (String x (a +:+ "") = String x a). now rewrite IH.
Qed.

Lemma string_length_app (a b : string) :
  String.length (a +:+ b) = String.length a + String.length b.
Proof.
  induction a as [|x a IH]; [reflexivity |].
  change (S (String.length (a +:+ b)) = S (String.length a + String.length b)).
  now rewrite IH.
Qed.

Lemma lazy_dot_then_unfold (closing s : string) :
  lazy_dot_then closing s
  = (String.eqb s closing
     || String.eqb s (closing +:+ String newline EmptyString)
     || match s with
        | EmptyString => false
        | String c s' =>
            if Ascii.eqb c newline then false else lazy_dot_then closing s'
        end).
Proof. destruct s; reflexivity. Qed.

(** The tail of a tag pattern accepts exactly: characters other than a
    newline, then the closing part, then at most one final newline. *)
Lemma lazy_dot_then_spec (closing s : string) :
  lazy_dot_then closing s = true
  <-> exists ns e,
        s = ns +:+ closing +:+ e
        /\ Forall (fun c => c <> newline) (list_ascii_of_string ns)
        /\ (e = ""%string \/ e = String newline EmptyString).
Proof.
  split.
  - induction s as [|c s IH]; rewrite lazy_dot_then_unfold; intros H;
      apply orb_true_iff in H as [H | H].
    + apply orb_true_iff in H as [H | H]; apply String.eqb_eq in H.
      * exists ""%string, ""%string. rewrite string_app_nil_r.
        split; [done |]. split; [constructor | now left].
      * exists ""%string, (String newline EmptyString).
        split; [done |]. split; [constructor | now right].
    + done.
    + apply orb_true_iff in H as [H | H]; apply String.eqb_eq in H.
      * exists ""%string, ""%string. rewrite string_app_nil_r.
        split; [done |]. split; [constructor | now left].
      * exists ""%string, (String newline EmptyString).
        split; [done |]. split; [constructor | now right].
    + destruct (Ascii.eqb_spec c newline) as [_ | Hc]; [done |].
      destruct (IH H) as (ns & e & -> & Hns & He).
      exists (String c ns), e. split; [done |].
      split; [now constructor | done].
  - intros (ns & e & -> & Hns & He).
    induction ns as [|c ns IH]; rewrite lazy_dot_then_unfold.
    + change ("" +:+ closing +:+ e) with (closing +:+ e).
      destruct He as [-> | ->].
      * rewrite string_app_nil_r, String.eqb_refl. done.
      * rewrite String.eqb_refl. rewrite orb_true_r. done.
    + change (String c ns +:+ closing +:+ e)
        with (String c (ns +:+ closing +:+ e)).
      cbn [list_ascii_of_string] in Hns.
      apply Forall_cons in Hns as [Hc Hns].
      destruct (Ascii.eqb_spec c newline) as [? | _]; [done |].
      rewrite (IH Hns). apply orb_true_r.
Qed.

(** X1: [TEXT_TAG] and [TSPAN_TAG] accept exactly the tags written
    [{namespace}text] and [{namespace}tspan], the namespace being free of
    newlines (one final newline is tolerated); a tag without the braces
    part, such as a plain "text", is not accepted. *)
Theorem tag_patterns_accept_braced_names (tag : string) :
  (TEXT_TAG tag = true
   <-> exists ns e,
         tag = "{" +:+ ns +:+ "}text" +:+ e
         /\ Forall (fun c => c <> newline) (list_ascii_of_string ns)
         /\ (e = ""%string \/ e = String newline EmptyString))
  /\ (TSPAN_TAG tag = true
      <-> exists ns e,
            tag = "{" +:+ ns +:+ "}tspan" +:+ e
            /\ Forall (fun c => c <> newline) (list_ascii_of_string ns)
            /\ (e = ""%string \/ e = String newline EmptyString)).
Proof.
  assert (Hgen : forall name,
             brace_tag_match name tag = true
             <-> exists ns e,
                   tag = "{" +:+ ns +:+ ("}" +:+ name) +:+ e
                   /\ Forall (fun c => c <> newline) (list_ascii_of_string ns)
                   /\ (e = ""%string \/ e = String newline EmptyString)).
  { intros name. unfold brace_tag_match.
    destruct tag as [|c rest].
    - split; [done | intros (? & ? & ? & _); done].
    - destruct (Ascii.eqb_spec c "{") as [-> | Hc].
      + rewrite lazy_dot_then_spec. split.
        * intros (ns & e & -> & Hns & He). exists ns, e. done.
        * intros (ns & e & [= ->] & Hns & He). exists ns, e. done.
      + split.
        * intros H. exfalso. revert H.
          destruct c as [[] [] [] [] [] [] [] []]; try done.
        * intros (ns & e & [= -> _] & _). done. }
  split; [apply (Hgen "text"%string) | apply (Hgen "tspan"%string)].
Qed.

(** No tag is both a text tag and a tspan tag. *)
Lemma lazy_text_not_tspan (s : string) :
  lazy_dot_then "}text" s = true -> lazy_dot_then "}tspan" s = false.
Proof.
  induction s as [|c s IH]; [done |].
  rewrite lazy_dot_then_unfold. intros H.
  apply orb_true_iff in H as [H | H].
  - apply orb_true_iff in H as [H | H]; apply String.eqb_eq in H;
      rewrite H; vm_compute; reflexivity.
  - destruct (Ascii.eqb_spec c newline) as [| Hc]; [done |].
    specialize (IH H). rewrite lazy_dot_then_unfold.
    destruct (Ascii.eqb_spec c newline) as [| _]; [done |].
    rewrite IH, orb_false_r.
    apply orb_false_iff. split; apply String.eqb_neq; intros Heq;
      injection Heq as -> ->; vm_compute in H; discriminate.
Qed.

(** X2: a text element is never taken for a tspan, nor a tspan for a text
    element. *)
Theorem text_and_tspan_tags_are_disjoint (tag : string) :
  TEXT_TAG tag = true -> TSPAN_TAG tag = false.
Proof.
  unfold TEXT_TAG, TSPAN_TAG, brace_tag_match.
  destruct tag as [|c rest]; [done |].
  intros H.
  assert (Hc : c = "{"%char).
  { revert H. destruct c as [[] [] [] [] [] [] [] []]; done. }
  subst c. now apply lazy_text_not_tspan.
Qed.

End Patterns.

(** ** Further properties: paragraphs and their re-flow *)

Section ReflowEdges.

Variable endpoint : request -> option (list string).
Variable sent_tokenize : string -> list string.
Variable wrap : string -> Z -> result (list string).
Variable from_lang : option string.
Variable to_lang : string.

Local Abbreviation reflow_lines' :=
  (reflow_lines endpoint sent_tokenize wrap from_lang to_lang).
Local Abbreviation translate_split_paragraph' :=
  (translate_split_paragraph endpoint sent_tokenize wrap from_lang to_lang).
Local Abbreviation translation_of' :=
  (translation_of endpoint from_lang to_lang).

(** X3: every fragment of a collected paragraph is the text of a tspan
    child at the recorded position, is not empty and contains none of the
    five characters. *)
Theorem fragments_are_valid_tspan_texts
    (kids : list element) (h : nat) (t : string) :
  (h, t) ∈ collect_paragraph kids ->
  exists k, kids !! h = Some k
            /\ TSPAN_TAG (tag k) = true
            /\ text k = Some t
            /\ t <> ""%string
            /\ INVALID_TEXT_findall t = false.
Proof.
  intros Hin. apply elem_of_collect_from in Hin as (k & _ & Hk & Hf).
  rewrite Nat.sub_0_r in Hk. exists k. split; [done |].
  unfold fragment_of in Hf.
  destruct (TSPAN_TAG (tag k)); [| done].
  destruct (text k) as [t0|]; [| done].
  destruct t0 as [|c t0]; [done |]. simpl in Hf.
  destruct (invalid_char c || INVALID_TEXT_findall t0) eqn:Hinv; [done |].
  injection Hf as <-. done.
Qed.

(** X4: for a paragraph that has a fragment, the reconciliation never
    raises, returns exactly one line per fragment, and leaves the lines
    alone when their number already fits. *)
Theorem reconcile_gives_one_line_per_fragment
    (size : nat) (lines : list string) :
  0 < size ->
  exists lines',
    reconcile size lines = Res lines'
    /\ length lines' = size
    /\ (length lines = size -> lines' = lines).
Proof.
  intros Hsize.
  destruct (reconcile_length size lines Hsize) as (lines' & Hrec & Hlen).
  exists lines'. split; [done |]. split; [done |].
  intros Heq. rewrite <- Heq, reconcile_same in Hrec. congruence.
Qed.

(** A sentence without an answer stops the translation of the sentences:
    the ones before it have been requested, it has, and none after it. *)
Lemma mapM_translate_fails (before after : list string) (s : string)
    (translations log : list string) :
  Forall2 (fun s t => translation_of' s = Some t) before translations ->
  translation_of' s = None ->
  mapM (translate endpoint from_lang to_lang) (before ++ s :: after) log
  = Raise TranslationError (log ++ before ++ [s]).
Proof.
  intros Hall Hs. revert log.
  induction Hall as [|s0 t0 before translations Hst _ IH]; intros log.
  - simpl. unfold bind. rewrite translate_run, Hs. done.
  - simpl. unfold bind at 1. rewrite translate_run, Hst.
    unfold bind at 1. rewrite IH. now rewrite <- app_assoc.
Qed.

(** X5: when the translation of a sentence fails, the re-flow of the
    paragraph raises at once: the sentences before it and the failing one
    are the only ones requested, nothing is retried and no child is
    assigned a line. *)
Theorem failed_translation_aborts_paragraph
    (paragraph : paragraph_t) (kids : list element)
    (before after : list string) (s : string)
    (translations log : list string) :
  paragraph <> [] ->
  Py.lower (raw_paragraph_of paragraph) <> "creative commons"%string ->
  sent_tokenize (raw_paragraph_of paragraph) = before ++ s :: after ->
  Forall2 (fun s t => translation_of' s = Some t) before translations ->
  translation_of' s = None ->
  translate_split_paragraph' paragraph kids log
  = Raise TranslationError (log ++ before ++ [s]).
Proof.
  intros Hne Hcc Hsent Hall Hs.
  unfold translate_split_paragraph, reflow_lines.
  rewrite lengths_of_fragments.
  destruct paragraph.*2 as [|t fragments] eqn:Hfr.
  { destruct paragraph; done. }
  cbn [map]. rewrite Py_max_cons. unfold bind at 1 2. cbn [lift].
  destruct (String.eqb_spec (Py.lower (raw_paragraph_of paragraph))
              "creative commons") as [Heq | _]; [done |].
  unfold bind at 1.
  rewrite Hsent, (mapM_translate_fails _ _ _ translations) by done.
  done.
Qed.

(** X6: a paragraph whose fragments have at most one character each is
    wrapped at width zero, which [wrap] refuses: the sentences are
    translated, then the re-flow raises [ValueError] and no child is
    assigned a line. *)
Theorem single_character_fragments_raise
    (tr : string -> string) (paragraph : paragraph_t) (kids : list element)
    (log : list string) :
  (forall text width, (width <= 0)%Z -> wrap text width = Exc ValueError) ->
  paragraph <> [] ->
  Forall (fun t => Py.len t <= 1) paragraph.*2 ->
  Py.lower (raw_paragraph_of paragraph) <> "creative commons"%string ->
  (forall s, s ∈ sent_tokenize (raw_paragraph_of paragraph) ->
             translation_of' s = Some (tr s)) ->
  translate_split_paragraph' paragraph kids log
  = Raise ValueError (log ++ sent_tokenize (raw_paragraph_of paragraph)).
Proof.
  intros Hwrap Hne Hshort Hcc Htr.
  unfold translate_split_paragraph, bind at 1.
  rewrite (reflow_lines_run _ _ _ _ _ tr) by done.
  unfold spec_wrapped_text. rewrite Hwrap; [done |].
  assert (max_list (map Py.len paragraph.*2) <= 1); [| lia].
  induction Hshort as [|t fragments Ht _ IH]; simpl; lia.
Qed.

End ReflowEdges.

(** ** Further properties: the list of files *)

Section FileList.

Variable endpoint : request -> option (list string).
Variable sent_tokenize : string -> list string.
Variable wrap : string -> Z -> result (list string).
Variable from_lang : option string.
Variable to_lang : string.
Variable path_kind_of : string -> path_kind.
Variable parse : string -> result element.

Local Abbreviation accepted' := (accepted path_kind_of).
Local Abbreviation fnames_of' := (fnames_of path_kind_of).
(** X7: [validate_file] lets a path through exactly when it names a
    regular file and the name ends in "svg" (with or without a dot before
    it). *)
Theorem accepted_iff_regular_svg (fname : string) :
  accepted path_kind_of fname = true
  <-> path_kind_of fname = RegularFile /\ Py.endswith fname "svg" = true.
Proof.
  unfold accepted, validate_file, path_exists, path_isfile.
  destruct (path_kind_of fname), (Py.endswith fname "svg"); simpl;
    split; (done || intros [? ?]; done).
Qed.

Lemma validated_is_filter (files : list string) :
  fst (validate_all path_kind_of files) = List.filter accepted' files.
Proof.
  induction files as [|f files IH]; simpl; [done |].
  destruct (validate_all path_kind_of files) as [kept warnings].
  simpl in *. rewrite IH. done.
Qed.

Lemma insert_sorted_perm (x : string) (l : list string) :
  insert_sorted x l ≡ₚ x :: l.
Proof.
  induction l as [|y l IH]; simpl; [done |].
  destruct (String.leb x y); [done |].
  rewrite IH. apply Permutation_swap.
Qed.

Lemma sort_perm (l : list string) : sort l ≡ₚ l.
Proof.
  unfold sort. induction l as [|x l IH]; simpl; [done |].
  now rewrite insert_sorted_perm, IH.
Qed.

Lemma insert_sorted_sorted (x : string) (l : list string) :
  Sorted (fun a b => String.leb a b = true) l ->
  Sorted (fun a b => String.leb a b = true) (insert_sorted x l).
Proof.
  induction 1 as [|y l Hsorted IH Hhd]; simpl.
  - repeat constructor.
  - destruct (String.leb x y) eqn:Hxy.
    + constructor; [now constructor |]. now constructor.
    + constructor; [done |].
      assert (Hyx : String.leb y x = true).
      { destruct (String.leb_total x y) as [H | H]; [congruence | done]. }
      destruct Hhd as [|z l Hyz]; simpl.
      * now constructor.
      * destruct (String.leb x z); now constructor.
Qed.

(** X8: the files handed to the translation loop are the accepted ones of
    the command line, each as often as it was given, in ascending order
    of their names. *)
Theorem fnames_are_the_accepted_files_sorted (files : list string) :
  Sorted (fun a b => String.leb a b = true) (fnames_of path_kind_of files)
  /\ fnames_of path_kind_of files
     ≡ₚ List.filter (accepted path_kind_of) files.
Proof.
  unfold fnames_of. rewrite validated_is_filter. split.
  - unfold sort. induction (List.filter accepted' files) as [|x l IH]; simpl.
    + constructor.
    + now apply insert_sorted_sorted.
  - apply sort_perm.
Qed.

End FileList.

(** ** Further properties: the whole tree *)

Section TreeFacts.

Variable endpoint : request -> option (list string).
Variable sent_tokenize : string -> list string.
Variable wrap : string -> Z -> result (list string).
Variable from_lang : option string.
Variable to_lang : string.

Local Abbreviation translate_paragraph' :=
  (translate_paragraph endpoint sent_tokenize wrap from_lang to_lang).
Local Abbreviation translate_text_element' :=
  (translate_text_element endpoint sent_tokenize wrap from_lang to_lang).
Local Abbreviation translate_file' :=
  (translate_file endpoint sent_tokenize wrap from_lang to_lang).
Local Abbreviation visit :=
  (fun (acc : M element) (ref : ref_t) =>
     do t <- acc; at_ref ref translate_text_element' t).

Lemma retexted_refl (k : element) : retexted k k.
Proof. now split. Qed.

Lemma Forall2_retexted_refl (kids : list element) :
  Forall2 retexted kids kids.
Proof. induction kids; constructor; [apply retexted_refl | done]. Qed.

Lemma Forall2_retexted_trans (a b c : list element) :
  Forall2 retexted a b -> Forall2 retexted b c -> Forall2 retexted a c.
Proof.
  intros Hab. revert c.
  induction Hab as [|x y a b [Ht Hc] _ IH]; intros c Hbc;
    inversion Hbc as [|? z ? c' [Ht' Hc'] Hrest]; subst; constructor.
  - split; congruence.
  - now apply IH.
Qed.

Lemma set_text_retexted (kids : list element) (child : nat) (s : string) :
  Forall2 retexted kids (set_text child s kids).
Proof.
  unfold set_text. revert child.
  induction kids as [|k kids IH]; intros [|child]; simpl; constructor;
    try apply retexted_refl; try apply Forall2_retexted_refl; try apply IH.
  now split.
Qed.

Lemma assign_retexted (paragraph : paragraph_t) (lines : list string)
    (kids : list element) :
  Forall2 retexted kids (assign paragraph lines kids).
Proof.
  unfold assign. revert lines kids.
  induction paragraph as [|[h t] paragraph IH]; intros [|l lines] kids;
    simpl; try apply Forall2_retexted_refl.
  eapply Forall2_retexted_trans; [apply set_text_retexted | apply IH].
Qed.

Lemma translate_paragraph_retexted paragraph kids log kids' log' :
  translate_paragraph' paragraph kids log = Ok kids' log' ->
  Forall2 retexted kids kids'.
Proof.
  intros Hrun.
  destruct paragraph as [|[h1 t1] [|[h2 t2] paragraph]].
  - injection Hrun as <- <-. apply Forall2_retexted_refl.
  - unfold translate_paragraph, bind in Hrun. rewrite translate_run in Hrun.
    destruct (translation_of endpoint from_lang to_lang t1); [| done].
    injection Hrun as <- <-. apply set_text_retexted.
  - apply translate_split_paragraph_inv in Hrun as [-> | [lines ->]].
    + apply Forall2_retexted_refl.
    + apply assign_retexted.
Qed.

(** What the loop body does to a text element: its tag stays, its children
    keep their tags and their own children, and a child that contributes
    no fragment stays as it is. *)
Lemma translate_text_element_effect e log e' log' :
  translate_text_element' e log = Ok e' log' ->
  tag e' = tag e
  /\ Forall2 retexted (children e) (children e')
  /\ forall i k, children e !! i = Some k -> fragment_of k = None ->
                 children e' !! i = Some k.
Proof.
  intros Hrun. unfold translate_text_element, bind at 1 in Hrun.
  destruct (translate_own_text _ _ _ e log) as [own log1 | ? ?]; [| done].
  unfold bind in Hrun.
  destruct (translate_paragraph' _ (children e) log1)
    as [kids' log2 | ? ?] eqn:Hpar; [| done].
  unfold ret in Hrun. injection Hrun as <- <-. simpl.
  split; [done |]. split; [eapply translate_paragraph_retexted, Hpar |].
  intros i k Hk Hfrag.
  rewrite (translate_paragraph_frame _ _ _ _ _ _ _ _ _ _ i Hpar); [done |].
  intros Hin. apply list_elem_of_fmap in Hin as ([h t] & Heq & Hin).
  simpl in Heq. subst h.
  apply elem_of_collect_from in Hin as (k' & _ & Hk' & Hf).
  rewrite Nat.sub_0_r, Hk in Hk'. injection Hk' as <-. congruence.
Qed.

Lemma not_tspan_no_fragment (k : element) :
  TSPAN_TAG (tag k) = false -> fragment_of k = None.
Proof. intros H. unfold fragment_of. now rewrite H. Qed.

(** One visit: every element is still there with its tag and as many
    children; its text is the same unless it is the element visited or a
    tspan child of it. *)
Lemma at_ref_step (p : ref_t) :
  forall tree log tree' log',
    at_ref p translate_text_element' tree log = Ok tree' log' ->
    forall r e, subtree r tree = Some e ->
      exists e', subtree r tree' = Some e'
                 /\ tag e' = tag e
                 /\ length (children e') = length (children e)
                 /\ (r <> p ->
                     (forall i, r = p ++ [i] -> TSPAN_TAG (tag e) = false) ->
                     text e' = text e).
Proof.
  induction p as [|i0 p IH]; intros tree log tree' log' Hrun r e Hr.
  - simpl in Hrun.
    destruct (translate_text_element_effect _ _ _ _ Hrun)
      as (Htag & Hkids & Hframe).
    destruct r as [|i r].
    + injection Hr as <-. exists tree'. split; [done |]. split; [done |].
      split; [symmetry; eapply Forall2_length, Hkids | done].
    + simpl in Hr.
      destruct (children tree !! i) as [k|] eqn:Hk; [| done]. simpl in Hr.
      destruct (Forall2_lookup_l _ _ _ _ _ Hkids Hk) as (k' & Hk' & Htk & Hck).
      destruct r as [|j r].
      * injection Hr as <-. exists k'. simpl. rewrite Hk'.
        split; [done |]. split; [done |]. split; [now rewrite Hck |].
        intros _ Hts.
        assert (Hsame : children tree' !! i = Some k).
        { apply Hframe; [done |]. apply not_tspan_no_fragment.
          now apply (Hts i). }
        rewrite Hk' in Hsame. now injection Hsame as ->.
      * exists e. split; [| done].
        change (subtree (i :: j :: r) tree')
          with (k0 ← children tree' !! i; k1 ← children k0 !! j; subtree r k1).
        rewrite Hk'. simpl. rewrite Hck. exact Hr.
  - simpl in Hrun.
    destruct (children tree !! i0) as [k|] eqn:Hk.
    2:{ injection Hrun as <- <-. exists e. done. }
    unfold bind in Hrun.
    destruct (at_ref p translate_text_element' k log) as [k' log1 | ? ?]
      eqn:Hsub; [| done].
    unfold ret in Hrun. injection Hrun as <- <-.
    destruct r as [|i r].
    + injection Hr as <-. eexists. split; [reflexivity |]. simpl.
      split; [done |]. split; [apply length_insert | done].
    + simpl in Hr. destruct (decide (i = i0)) as [-> | Hne].
      * rewrite Hk in Hr. simpl in Hr.
        destruct (IH _ _ _ _ Hsub r e Hr) as (e' & He' & Htag & Hlen & Htext).
        exists e'. simpl.
        rewrite list_lookup_insert_eq by (eapply lookup_lt_Some, Hk).
        simpl. split; [done |]. split; [done |]. split; [done |].
        intros Hrp Hts. apply Htext.
        -- congruence.
        -- intros j ->. apply (Hts j). done.
      * exists e. simpl. rewrite list_lookup_insert_ne by done.
        split; [exact Hr | done].
Qed.

(** A run of the loop from an accumulated computation is that computation
    followed by the loop from its result. *)
Lemma foldl_visit_run (refs : list ref_t) :
  forall (acc : M element) (log : list string),
    foldl visit acc refs log
    = match acc log with
      | Ok t log1 => foldl visit (ret t) refs log1
      | Raise e log1 => Raise e log1
      end.
Proof.
  induction refs as [|p refs IH]; intros acc log.
  - simpl. unfold ret. now destruct (acc log).
  - simpl. rewrite IH. unfold bind at 1.
    destruct (acc log) as [t log1 | ? ?]; [| done].
    rewrite IH. done.
Qed.

(** The loop over a list of references: every element is still there with
    its tag and as many children; its text is the same unless it is one of
    the elements visited or a tspan child of one. *)
Lemma visits_frame (refs : list ref_t) :
  forall tree log tree' log',
    foldl visit (ret tree) refs log = Ok tree' log' ->
    forall r e, subtree r tree = Some e ->
      exists e', subtree r tree' = Some e'
                 /\ tag e' = tag e
                 /\ length (children e') = length (children e)
                 /\ (r ∉ refs ->
                     (forall p i, p ∈ refs -> r = p ++ [i] ->
                                  TSPAN_TAG (tag e) = false) ->
                     text e' = text e).
Proof.
  induction refs as [|p refs IH]; intros tree log tree' log' Hrun r e Hr.
  - injection Hrun as <- <-. exists e. done.
  - simpl in Hrun. rewrite foldl_visit_run in Hrun.
    unfold bind at 1, ret at 1 in Hrun.
    destruct (at_ref p translate_text_element' tree log) as [t1 log1 | ? ?]
      eqn:Hstep; [| done].
    destruct (at_ref_step p _ _ _ _ Hstep r e Hr)
      as (e1 & Hr1 & Htag1 & Hlen1 & Htext1).
    destruct (IH _ _ _ _ Hrun r e1 Hr1) as (e' & Hr' & Htag & Hlen & Htext).
    exists e'. split; [done |]. split; [congruence |]. split; [congruence |].
    intros Hout Hts. apply not_elem_of_cons in Hout as [Hne Hout].
    rewrite Htext, Htext1; try done.
    + intros i Hi. apply (Hts p i); [left | done].
    + intros q i Hq Hi. rewrite Htag1. apply (Hts q i); [now right | done].
Qed.

(** X10: [translate_file] changes texts only: every element of the parsed
    tree is found at the same place in the result, with the same tag and
    as many children. *)
Theorem translate_file_keeps_tags_and_structure
    (tree : element) (log : list string) (tree' : element)
    (log' : list string) (r : ref_t) (e : element) :
  translate_file' tree log = Ok tree' log' ->
  subtree r tree = Some e ->
  exists e', subtree r tree' = Some e'
             /\ tag e' = tag e
             /\ length (children e') = length (children e).
Proof.
  intros Hrun Hr. unfold translate_file in Hrun.
  destruct (visits_frame _ _ _ _ _ Hrun r e Hr) as (e' & ? & ? & ? & _).
  exists e'. done.
Qed.

(** X11: the only texts [translate_file] changes are those of text elements
    and of tspan children of text elements: an element that is not a text
    element, and that is not a tspan directly under one, keeps its
    text. *)
Theorem translate_file_leaves_other_texts
    (tree : element) (log : list string) (tree' : element)
    (log' : list string) (r : ref_t) (e : element) :
  translate_file' tree log = Ok tree' log' ->
  subtree r tree = Some e ->
  TEXT_TAG (tag e) = false ->
  (TSPAN_TAG (tag e) = true ->
   forall p i parent, r = p ++ [i] -> subtree p tree = Some parent ->
                      TEXT_TAG (tag parent) = false) ->
  exists e', subtree r tree' = Some e' /\ text e' = text e.
Proof.
  intros Hrun Hr Htext Hparent. unfold translate_file in Hrun.
  destruct (visits_frame _ _ _ _ _ Hrun r e Hr) as (e' & Hr' & _ & _ & Hsame).
  exists e'. split; [done |]. apply Hsame.
  - intros Hin. apply list_elem_of_In in Hin.
    unfold get_text_tags in Hin. apply filter_In in Hin as [_ Hin].
    rewrite Hr in Hin. congruence.
  - intros p i Hp Hri.
    destruct (TSPAN_TAG (tag e)) eqn:Hts; [| done].
    apply list_elem_of_In in Hp.
    unfold get_text_tags in Hp. apply filter_In in Hp as [_ Hp].
    destruct (subtree p tree) as [parent|] eqn:Hparent_at; [| done].
    specialize (Hparent eq_refl p i parent Hri Hparent_at). congruence.
Qed.


End TreeFacts.

(** ** Further properties: the list of text elements *)

Section TextTags.









End TextTags.

(** ** Further properties: the name of the output file *)

Section OutNameFacts.

Variable format : string -> string -> string -> option string.

Lemma cut_no_sep (t : string) :
  Path.no_sep t = true -> Path.cut t = (EmptyString, t).
Proof.
  induction t as [|c t IH]; [done |].
  cbn [Path.no_sep Path.cut]. intros H.
  apply andb_true_iff in H as [Hc Ht]. rewrite (IH Ht). cbn [Py.truthy].
  now destruct (Path.is_sep c).
Qed.

Lemma cut_app (a t : string) :
  Path.no_sep t = true -> Path.ends_with_sep a = true ->
  Path.cut (a +:+ t) = (a, t).
Proof.
  intros Ht. induction a as [|c a IH]; [done |].
  intros Ha. change (String c a +:+ t) with (String c (a +:+ t)).
  cbn [Path.cut]. destruct a as [|c' a].
  - simpl in Ha. change ("" +:+ t) with t. rewrite (cut_no_sep t Ht).
    cbn [Py.truthy]. now rewrite Ha.
  - rewrite IH by exact Ha. done.
Qed.

(** The two parts of a path: together they are the path, the second has
    no separator, and the first is empty or ends with one. *)
Lemma cut_spec (p : string) :
  (Path.cut p).1 +:+ (Path.cut p).2 = p
  /\ Path.no_sep (Path.cut p).2 = true
  /\ ((Path.cut p).1 = EmptyString \/ Path.ends_with_sep (Path.cut p).1 = true).
Proof.
  induction p as [|c p (Happ & Hsep & Hhead)]; [simpl; auto |].
  cbn [Path.cut]. destruct (Path.cut p) as [head tail]. simpl in *.
  destruct head as [|c' head]; cbn [Py.truthy].
  - destruct (Path.is_sep c) eqn:Hc; simpl.
    + rewrite Hc. subst p. auto.
    + rewrite Hc, Hsep. subst p. auto.
  - simpl. subst p. split; [done |]. split; [done |]. right.
    destruct Hhead as [? | Hhead]; [done | exact Hhead].
Qed.

Lemma all_seps_ends_with_sep (s : string) :
  Path.all_seps s = true -> s = EmptyString \/ Path.ends_with_sep s = true.
Proof.
  induction s as [|c s IH]; [auto |]. simpl. intros H.
  apply andb_true_iff in H as [Hc Hs]. right.
  destruct s as [|c' s]; [done |].
  destruct (IH Hs) as [? | ?]; done.
Qed.

Lemma ends_with_sep_app_sep (s : string) :
  Path.ends_with_sep (s +:+ "/") = true.
Proof.
  induction s as [|c s IH]; [done |].
  change (String c s +:+ "/") with (String c (s +:+ "/")).
  destruct s as [|c' s]; [done |]. exact IH.
Qed.

Lemma all_seps_app_sep (s : string) :
  Path.all_seps (s +:+ "/") = Path.all_seps s.
Proof.
  induction s as [|c s IH]; [done |].
  change (String c s +:+ "/") with (String c (s +:+ "/")).
  simpl. now rewrite IH.
Qed.

Lemma rstrip_seps_app_sep (s : string) :
  Path.rstrip_seps (s +:+ "/") = Path.rstrip_seps s.
Proof.
  induction s as [|c s IH]; [done |].
  change (String c s +:+ "/") with (String c (s +:+ "/")).
  cbn [Path.rstrip_seps]. now rewrite IH.
Qed.

(** Stripping the final separators: what is left does not end with one,
    is empty exactly for a string of separators, and a string that does
    not end with a separator is left as it is. *)
Lemma rstrip_seps_spec (s : string) :
  Path.ends_with_sep (Path.rstrip_seps s) = false
  /\ (Path.rstrip_seps s = EmptyString <-> Path.all_seps s = true)
  /\ (Path.ends_with_sep s = false -> Path.rstrip_seps s = s).
Proof.
  induction s as [|c s (Hend & Hempty & Hsame)]; [done |].
  cbn [Path.rstrip_seps Path.all_seps].
  assert (Htail : Path.all_seps s = true ->
                  s = EmptyString \/ Path.ends_with_sep (String c s) = true).
  { intros Hall.
    destruct (all_seps_ends_with_sep _ Hall) as [-> | He]; [now left | right].
    destruct s; [done | exact He]. }
  destruct (Path.rstrip_seps s) as [|c' r] eqn:Hr.
  - assert (Hall : Path.all_seps s = true) by now apply Hempty.
    rewrite Hall, andb_true_r.
    destruct (Htail Hall) as [-> | Hends].
    + cbn [Path.ends_with_sep]. destruct (Path.is_sep c) eqn:Hc.
      * split; [done |]. split; [done |]. intros; congruence.
      * cbn [Path.ends_with_sep]. rewrite Hc. done.
    + rewrite Hends. destruct (Path.is_sep c) eqn:Hc.
      * split; [done |]. split; [done |]. intros; congruence.
      * cbn [Path.ends_with_sep]. rewrite Hc.
        split; [done |]. split; [done |]. intros; congruence.
  - assert (Hall : Path.all_seps s = false).
    { destruct (Path.all_seps s); [| done].
      destruct Hempty as [_ Hempty]. now specialize (Hempty eq_refl). }
    rewrite Hall, andb_false_r. split; [exact Hend |]. split; [done |].
    destruct s as [|c0 s]; [done |].
    intros Hends. rewrite Hsame; [done | exact Hends].
Qed.

(** A name put beside a path keeps the directory of the path and is the
    last component of the result. *)
Lemma join_beside (p out : string) :
  Path.no_sep out = true ->
  Path.dirname (Path.join (Path.dirname p) out) = Path.dirname p
  /\ Path.basename (Path.join (Path.dirname p) out) = out.
Proof.
  intros Hout.
  assert (Hstart : Path.starts_with_sep out = false).
  { destruct out as [|c out]; [done |]. simpl in *.
    now destruct (Path.is_sep c). }
  destruct (cut_spec p) as (_ & _ & Hhead).
  set (head := (Path.cut p).1) in *.
  assert (Hdir : Path.dirname p
                 = if Py.truthy head && negb (Path.all_seps head)
                   then Path.rstrip_seps head else head) by reflexivity.
  rewrite Hdir. clearbody head. clear Hdir.
  destruct (Py.truthy head && negb (Path.all_seps head)) eqn:Hcond.
  - apply andb_true_iff in Hcond as [Hne Hall].
    apply negb_true_iff in Hall.
    destruct (rstrip_seps_spec head) as (Hend & Hempty & _).
    set (d := Path.rstrip_seps head) in *.
    assert (Hd : Py.truthy d = true).
    { destruct d; [| done]. destruct Hempty as [Hempty _].
      rewrite Hempty in Hall; done. }
    assert (Hdall : Path.all_seps d = false).
    { destruct (Path.all_seps d) eqn:Hdall; [| done].
      destruct (all_seps_ends_with_sep _ Hdall) as [-> | ?]; [done |].
      congruence. }
    unfold Path.join. rewrite Hstart, Hd, Hend. simpl negb. simpl orb.
    rewrite <- string_app_assoc.
    unfold Path.dirname, Path.basename.
    rewrite (cut_app _ _ Hout (ends_with_sep_app_sep d)). simpl fst. simpl snd.
    rewrite all_seps_app_sep, Hdall, rstrip_seps_app_sep.
    assert (Hnonempty : Py.truthy (d +:+ "/") = true) by now destruct d.
    rewrite Hnonempty. simpl.
    destruct (rstrip_seps_spec d) as (_ & _ & Hsame). now rewrite Hsame.
  - assert (Hjoin : Path.join head out = head +:+ out).
    { unfold Path.join. rewrite Hstart.
      destruct Hhead as [-> | ->]; [done | now rewrite orb_true_r]. }
    assert (Hcut : Path.cut (head +:+ out) = (head, out)).
    { destruct Hhead as [-> | He]; [now apply cut_no_sep | now apply cut_app]. }
    rewrite Hjoin. unfold Path.dirname, Path.basename.
    rewrite Hcut. simpl fst. simpl snd. now rewrite Hcond.
Qed.

Lemma cut_ext_app (name : string) :
  (Path.cut_ext name).1 +:+ (Path.cut_ext name).2 = name.
Proof.
  induction name as [|c name IH]; [done |].
  cbn [Path.cut_ext]. destruct (Path.cut_ext name) as [root ext].
  cbn [fst snd] in *. destruct ext as [|c' ext]; cbn [Py.truthy].
  - destruct (Path.is_dot c); cbn [fst snd]; [done |].
    change (String c (root +:+ "") = String c name). now rewrite IH.
  - cbn [fst snd].
    change (String c (root +:+ String c' ext) = String c name).
    now rewrite IH.
Qed.

Lemma no_sep_app (a b : string) :
  Path.no_sep (a +:+ b) = Path.no_sep a && Path.no_sep b.
Proof.
  induction a as [|c a IH]; [done |].
  change (String c a +:+ b) with (String c (a +:+ b)).
  simpl. rewrite IH. now rewrite andb_assoc.
Qed.

(** The root and the extension of a name without separator: together they
    are the name, and neither has a separator. *)
Lemma splitext_name (name : string) :
  Path.no_sep name = true ->
  (Path.splitext name).1 +:+ (Path.splitext name).2 = name
  /\ Path.no_sep (Path.splitext name).1 = true
  /\ Path.no_sep (Path.splitext name).2 = true.
Proof.
  intros Hname. unfold Path.splitext. rewrite (cut_no_sep name Hname).
  pose proof (cut_ext_app name) as Happ.
  destruct (Path.cut_ext name) as [root ext]. simpl in Happ.
  destruct (Py.truthy ext && negb (Path.all_dots root)); cbn [fst snd].
  - change ("" +:+ root) with root. rewrite Happ. split; [done |].
    rewrite <- Happ, no_sep_app in Hname.
    now apply andb_true_iff in Hname.
  - rewrite string_app_nil_r. done.
Qed.

(** X14: whatever the pattern, when the formatted name has no separator the
    output file lies in the directory of the input file and bears the
    formatted name. *)
Theorem out_name_is_beside_the_input
    (fname out_pattern out_name : string) :
  format out_pattern
    (Path.splitext (Path.basename fname)).1
    (Path.splitext (Path.basename fname)).2 = Some out_name ->
  Path.no_sep out_name = true ->
  exists out,
    get_out_name format fname out_pattern = Some out
    /\ Path.dirname out = Path.dirname fname
    /\ Path.basename out = out_name.
Proof.
  unfold get_out_name.
  destruct (Path.splitext (Path.basename fname)) as [name extension].
  cbn [fst snd]. intros -> Hsep.
  eexists. split; [done |]. now apply join_beside.
Qed.

(** X15: with the default pattern the output name is the input name with
    "_translated" put before the extension, in the same directory, and so
    never the name of the input file itself. *)
Theorem default_out_name_never_overwrites (fname : string) :
  (forall name extension,
      format default_out_pattern name extension
      = Some (name +:+ "_translated" +:+ extension)) ->
  exists out,
    get_out_name format fname default_out_pattern = Some out
    /\ out <> fname
    /\ Path.dirname out = Path.dirname fname
    /\ Path.basename out
       = (Path.splitext (Path.basename fname)).1 +:+ "_translated"
         +:+ (Path.splitext (Path.basename fname)).2.
Proof.
  intros Hformat.
  destruct (cut_spec fname) as (_ & Hbase & _).
  fold (Path.basename fname) in Hbase.
  destruct (splitext_name _ Hbase) as (Happ & Hroot & Hext).
  unfold get_out_name.
  destruct (Path.splitext (Path.basename fname)) as [name extension].
  simpl in *. rewrite Hformat.
  assert (Hsep : Path.no_sep (name +:+ "_translated" +:+ extension) = true).
  { rewrite !no_sep_app, Hroot, Hext. done. }
  destruct (join_beside fname _ Hsep) as [Hdir Hname].
  eexists. split; [done |]. split; [| done].
  intros Heq. rewrite Heq in Hname. rewrite Hname in Happ.
  apply (f_equal String.length) in Happ.
  rewrite !string_length_app in Happ. simpl in Happ. lia.
Qed.

End OutNameFacts.

(** ** The further properties at concrete inputs *)

Lemma tag_patterns_accept_braced_names_witness :
  exists ns e, svg_text = "{" +:+ ns +:+ "}text" +:+ e.
Proof.
  destruct (proj1 (proj1 (tag_patterns_accept_braced_names svg_text)))
    as (ns & e & Heq & _).
  - reflexivity.
  - exists ns, e. exact Heq.
Defined.

Lemma text_and_tspan_tags_are_disjoint_witness : TSPAN_TAG svg_text = false.
Proof. apply text_and_tspan_tags_are_disjoint. reflexivity. Defined.

Lemma fragments_are_valid_tspan_texts_witness :
  exists k, [tspan "a=b"; tspan "Hello"] !! 1 = Some k
            /\ TSPAN_TAG (tag k) = true
            /\ text k = Some "Hello"%string
            /\ "Hello"%string <> ""%string
            /\ INVALID_TEXT_findall "Hello" = false.
Proof.
  apply (fragments_are_valid_tspan_texts [tspan "a=b"; tspan "Hello"] 1).
  vm_compute. left.
Defined.

Lemma reconcile_gives_one_line_per_fragment_witness :
  exists lines',
    reconcile 2 ["Eu"; "gosto"; "de"; "gatos"]%string = Res lines'
    /\ length lines' = 2
    /\ (length ["Eu"; "gosto"; "de"; "gatos"]%string = 2 ->
        lines' = ["Eu"; "gosto"; "de"; "gatos"]%string).
Proof. apply reconcile_gives_one_line_per_fragment. lia. Defined.

Lemma more_lines_are_merged_witness :
  exists kids',
    translate_split_paragraph (table_endpoint phrasebook) single_sentence
      Textwrap.wrap None "pt" [(0, "I like"); (1, "cats")]%string
      [tspan "I like"; tspan "cats"] []
    = Ok kids' ["I like cats"%string]
    /\ text_at kids' 0 = Some "Eu"%string
    /\ text_at kids' 1 = Some "gosto gatos de"%string.
Proof.
  destruct (more_lines_are_merged
              (table_endpoint phrasebook) single_sentence Textwrap.wrap
              None "pt" [(0, "I like"); (1, "cats")]%string
              [tspan "I like"; tspan "cats"] [] ["I like cats"%string]
              ["Eu"%string] ["de"; "gatos"]%string "gosto")
    as (kids' & Hrun & Hfront & Hlast).
  - apply (bool_decide_unpack _). vm_compute. exact I.
  - repeat constructor; simpl; lia.
  - vm_compute. reflexivity.
  - discriminate.
  - reflexivity.
  - exists kids'. split; [exact Hrun |]. split.
    + apply (Hfront 0 0 "I like"%string); reflexivity.
    + apply (Hlast 1 "cats"%string). reflexivity.
Defined.

Lemma failed_translation_aborts_paragraph_witness :
  translate_split_paragraph (strict_endpoint phrasebook) single_sentence
    Textwrap.wrap None "pt" [(0, "Good"); (1, "bye")]%string
    [tspan "Good"; tspan "bye"] []
  = Raise TranslationError ([] ++ [] ++ ["Good bye"%string]).
Proof.
  apply (failed_translation_aborts_paragraph
           (strict_endpoint phrasebook) single_sentence Textwrap.wrap
           None "pt" [(0, "Good"); (1, "bye")]%string
           [tspan "Good"; tspan "bye"] [] [] "Good bye" [] []).
  - discriminate.
  - vm_compute. discriminate.
  - reflexivity.
  - constructor.
  - reflexivity.
Defined.

Lemma single_character_fragments_raise_witness :
  translate_split_paragraph echo_endpoint single_sentence Textwrap.wrap
    None "en" [(0, "a"); (1, "b")]%string [tspan "a"; tspan "b"] []
  = Raise ValueError ([] ++ single_sentence "a b").
Proof.
  apply (single_character_fragments_raise
           echo_endpoint single_sentence Textwrap.wrap None "en"
           (fun s => s) [(0, "a"); (1, "b")]%string [tspan "a"; tspan "b"] []).
  - intros text width Hwidth. unfold Textwrap.wrap.
    apply Z.leb_le in Hwidth. now rewrite Hwidth.
  - discriminate.
  - repeat constructor.
  - vm_compute. discriminate.
  - intros s _. reflexivity.
Defined.

Lemma accepted_iff_regular_svg_witness :
  sample_paths "a.svg" = RegularFile /\ Py.endswith "a.svg" "svg" = true.
Proof.
  apply (proj1 (accepted_iff_regular_svg sample_paths "a.svg")).
  reflexivity.
Defined.

Lemma translate_file_keeps_tags_and_structure_witness :
  exists e', tag e' = svg_text /\ length (children e') = 1.
Proof.
  destruct (translate_file_keeps_tags_and_structure
              (table_endpoint phrasebook) single_sentence Textwrap.wrap
              None "pt" sample_document []
              (Element "{http://www.w3.org/2000/svg}svg" None
                 [Element "{http://www.w3.org/2000/svg}title"
                    (Some "Hello dear world"%string) [];
                  Element svg_text None [tspan "Oi mundo"]])
              ["Hello dear world"%string] [1]
              (Element svg_text None [tspan "Hello dear world"]))
    as (e' & _ & Htag & Hlen).
  - vm_compute. reflexivity.
  - reflexivity.
  - exists e'. split; [exact Htag | exact Hlen].
Defined.

Lemma translate_file_leaves_other_texts_witness :
  exists e', text e' = Some "Hello dear world"%string.
Proof.
  destruct (translate_file_leaves_other_texts
              (table_endpoint phrasebook) single_sentence Textwrap.wrap
              None "pt" sample_document []
              (Element "{http://www.w3.org/2000/svg}svg" None
                 [Element "{http://www.w3.org/2000/svg}title"
                    (Some "Hello dear world"%string) [];
                  Element svg_text None [tspan "Oi mundo"]])
              ["Hello dear world"%string] [0]
              (Element "{http://www.w3.org/2000/svg}title"
                 (Some "Hello dear world"%string) []))
    as (e' & _ & Htext).
  - vm_compute. reflexivity.
  - reflexivity.
  - reflexivity.
  - intros Htspan. vm_compute in Htspan. discriminate.
  - exists e'. exact Htext.
Defined.



Lemma out_name_is_beside_the_input_witness :
  exists out,
    get_out_name simple_format "comics/strip.01.svg" default_out_pattern
    = Some out
    /\ Path.dirname out = Path.dirname "comics/strip.01.svg"
    /\ Path.basename out = "strip.01_translated.svg"%string.
Proof.
  apply (out_name_is_beside_the_input simple_format "comics/strip.01.svg"
           default_out_pattern "strip.01_translated.svg"); reflexivity.
Defined.

Lemma default_out_name_never_overwrites_witness :
  exists out,
    get_out_name simple_format "comics/strip.01.svg" default_out_pattern
    = Some out
    /\ out <> "comics/strip.01.svg"%string.
Proof.
  destruct (default_out_name_never_overwrites simple_format
              "comics/strip.01.svg") as (out & Hout & Hdiff & _).
  - intros name extension. unfold simple_format, default_out_pattern.
    simpl. now rewrite string_app_nil_r.
  - exists out. split; [exact Hout | exact Hdiff].
Defined.
